(** * swagger-to-localdb-cli: schema and route synthesis

    A shallow embedding of the parser ([SwaggerSpecParser]), of the three
    generators ([TypeGenerator], [ApiGenerator], [DbGenerator]) and of the
    seed file loader ([loadSeedData]) into Rocq, together with the
    properties of the specification that concern them and further
    properties read off the code.

    Conventions of the embedding:
    - JavaScript strings are [string]s of ASCII characters; case mapping and
      the regular-expression classes act on ASCII letters and digits.
    - A JavaScript object is the list of its own entries.  The objects of
      the document whose keys the source enumerates and which may carry
      integer-like keys (the responses of an operation, the seed file) are
      given in declaration order, and so is the object the grouping builds
      (creation order); [JS.entries] computes the order in which
      [Object.entries] yields them: array indices ascending, then the other
      keys in creation order.  The remaining objects (paths, path items,
      named schemas, properties, media types) are given in the order
      [Object.entries] yields.  An object used purely as a dictionary looked up by key (the
      seed data handed to the generator) is a [gmap].
    - [obj[key]] on a plain object also finds what [Object.prototype]
      provides ([JS.inherited]); where the source writes through such a
      lookup, the [TypeError] it raises is an outcome of the model.
    - The document is a finite tree ([RawSchema]); schema objects that
      refer to each other as objects are a graph ([SchemaGraph]), read by
      [parseSchemaGraph] with an explicit bound on the call stack.
    - An optional field [f?: T] is an [option T]; JavaScript truthiness is
      written out where the source tests a value ([truthy], [is_Some]).
    - [fs.writeFile] calls are collected as the ordered list of
      (file name, content) pairs they write. *)

From Stdlib Require Import String Ascii List ZArith Lia Bool DecimalString Permutation Sorted.
From stdpp Require Import base strings gmap list.
Import ListNotations.
Open Scope string_scope.

#[global] Set Warnings "-register-all".

(** ** JavaScript string primitives used by the sources *)

Module JS.

Definition code (c : ascii) : nat := nat_of_ascii c.

Definition isUpper (c : ascii) : bool := (65 <=? code c)%nat && (code c <=? 90)%nat.
Definition isLower (c : ascii) : bool := (97 <=? code c)%nat && (code c <=? 122)%nat.
Definition isDigit (c : ascii) : bool := (48 <=? code c)%nat && (code c <=? 57)%nat.

(** [[a-zA-Z0-9]] *)
Definition isAlnum (c : ascii) : bool := isLower c || isUpper c || isDigit c.

(** The class [\w], that is [[A-Za-z0-9_]]. *)
Definition isWord (c : ascii) : bool := isAlnum c || Ascii.eqb c "_".

Definition toLowerChar (c : ascii) : ascii :=
  if isUpper c then ascii_of_nat (code c + 32) else c.

Definition toUpperChar (c : ascii) : ascii :=
  if isLower c then ascii_of_nat (code c - 32) else c.

(** [String.prototype.toLowerCase] and [toUpperCase]. *)
Fixpoint toLowerCase (s : string) : string :=
  match s with
  | EmptyString => EmptyString
  | String c s' => String (toLowerChar c) (toLowerCase s')
  end.

Fixpoint toUpperCase (s : string) : string :=
  match s with
  | EmptyString => EmptyString
  | String c s' => String (toUpperChar c) (toUpperCase s')
  end.

(** A string is truthy when it is not empty. *)
Definition truthy (s : string) : bool :=
  match s with EmptyString => false | String _ _ => true end.

(** An optional string field is truthy when present and not empty. *)
Definition truthyOpt (o : option string) : bool :=
  match o with Some s => truthy s | None => false end.

(** [a || b] on strings. *)
Definition orElse (a b : string) : string := if truthy a then a else b.

(** [o || b] where [o] may be [undefined]. *)
Definition optOrElse (o : option string) (b : string) : string :=
  match o with Some a => orElse a b | None => b end.

(** [s.startsWith(p)] *)
Definition startsWith (p s : string) : bool := String.prefix p s.

(** [s.includes(p)] *)
Fixpoint includes (p s : string) : bool :=
  String.prefix p s ||
  match s with
  | EmptyString => false
  | String _ s' => includes p s'
  end.

(** [s.split(sep)] for a one-character separator: never the empty list. *)
Fixpoint split (sep : ascii) (s : string) : list string :=
  match s with
  | EmptyString => [EmptyString]
  | String c s' =>
      if Ascii.eqb c sep then EmptyString :: split sep s'
      else match split sep s' with
           | [] => [String c EmptyString]
           | seg :: segs => String c seg :: segs
           end
  end.

(** [parts.join(sep)] *)
Fixpoint join (sep : string) (parts : list string) : string :=
  match parts with
  | [] => EmptyString
  | [p] => p
  | p :: ps => p ++ sep ++ join sep ps
  end.

(** [arr[arr.length - 1]], [undefined] on the empty array; also what
    [arr.pop()] returns. *)
Definition lastElem (parts : list string) : option string := List.last (map Some parts) None.

(** [s.charAt(0)] and [s.slice(1)] *)
Definition charAt0 (s : string) : string :=
  match s with EmptyString => EmptyString | String c _ => String c EmptyString end.
Definition slice1 (s : string) : string :=
  match s with EmptyString => EmptyString | String _ s' => s' end.

(** [s.replace(/[^a-zA-Z0-9]/g, '')] *)
Fixpoint stripNonAlnum (s : string) : string :=
  match s with
  | EmptyString => EmptyString
  | String c s' => if isAlnum c then String c (stripNonAlnum s') else stripNonAlnum s'
  end.

(** [s.replace(/(?:^|[-_])(\w)/g, (_, c) => c.toUpperCase())].

    The scan goes left to right.  At offset 0 the alternative [^] is tried
    first, so a leading word character is matched alone; anywhere, a [-]
    or [_] followed by a word character is matched as a pair and replaced
    by the upper-cased word character; the scan resumes after the match.
    Unmatched characters are copied. *)
Fixpoint capitalizeAfterSep (s : string) : string :=
  match s with
  | EmptyString => EmptyString
  | String d rest =>
      match rest with
      | EmptyString => String d EmptyString
      | String c rest' =>
          if (Ascii.eqb d "-" || Ascii.eqb d "_") && isWord c
          then String (toUpperChar c) (capitalizeAfterSep rest')
          else String d (capitalizeAfterSep rest)
      end
  end.

Definition capitalizeWords (s : string) : string :=
  match s with
  | EmptyString => EmptyString
  | String c rest =>
      if isWord c then String (toUpperChar c) (capitalizeAfterSep rest)
      else capitalizeAfterSep s
  end.

(** [parseInt(s, 10)]: optional white space and sign, then the longest
    run of decimal digits; [None] stands for [NaN]. *)
Definition digitVal (c : ascii) : Z := Z.of_nat (code c - 48).

Fixpoint parseDigits (acc : Z) (s : string) : Z :=
  match s with
  | EmptyString => acc
  | String c s' => if isDigit c then parseDigits (10 * acc + digitVal c) s' else acc
  end.

Definition isSpace (c : ascii) : bool :=
  Ascii.eqb c " " || ((9 <=? code c)%nat && (code c <=? 13)%nat).

Fixpoint skipSpaces (s : string) : string :=
  match s with
  | EmptyString => EmptyString
  | String c s' => if isSpace c then skipSpaces s' else s
  end.

Definition parseUnsigned (s : string) : option Z :=
  match s with
  | EmptyString => None
  | String c _ => if isDigit c then Some (parseDigits 0 s) else None
  end.

Definition parseInt10 (s : string) : option Z :=
  match skipSpaces s with
  | EmptyString => None
  | String c s' =>
      if Ascii.eqb c "-" then option_map Z.opp (parseUnsigned s')
      else if Ascii.eqb c "+" then parseUnsigned s'
      else parseUnsigned (String c s')
  end.

(** The property names every plain object inherits from [Object.prototype]:
    for these [obj[key]] yields a function (the prototype itself under
    [__proto__]) although [obj] has no such own property. *)
Definition objectPrototypeKeys : list string :=
  ["constructor"; "hasOwnProperty"; "isPrototypeOf"; "propertyIsEnumerable";
   "toLocaleString"; "toString"; "valueOf"; "__defineGetter__";
   "__defineSetter__"; "__lookupGetter__"; "__lookupSetter__"; "__proto__"].

Definition inherited (key : string) : bool :=
  existsb (String.eqb key) objectPrototypeKeys.

Fixpoint onlyDigits (s : string) : bool :=
  match s with
  | EmptyString => true
  | String c s' => isDigit c && onlyDigits s'
  end.

(** A property key that is an array index: the canonical decimal numeral
    of an integer from 0 to 2^32 - 2. *)
Definition isArrayIndex (key : string) : bool :=
  match key with
  | EmptyString => false
  | String c rest =>
      (if Ascii.eqb c "0" then negb (truthy rest) else isDigit c && onlyDigits rest)
      && (parseDigits 0 key <=? 4294967294)%Z
  end.

Definition indexValue (key : string) : Z := parseDigits 0 key.

(** [Object.entries(obj)] for an object given by its own entries in
    creation order: the entries under array indices in ascending numeric
    order, then the others in creation order. *)
Fixpoint insertEntry {A : Type} (entry : string * A) (sorted : list (string * A))
  : list (string * A) :=
  match sorted with
  | [] => [entry]
  | e :: rest =>
      if (indexValue (fst entry) <=? indexValue (fst e))%Z then entry :: sorted
      else e :: insertEntry entry rest
  end.

Definition ascending {A : Type} (indexed : list (string * A)) : list (string * A) :=
  fold_right insertEntry [] indexed.

Definition entries {A : Type} (own : list (string * A)) : list (string * A) :=
  (ascending (List.filter (fun entry => isArrayIndex (fst entry)) own) ++
   List.filter (fun entry => negb (isArrayIndex (fst entry))) own)%list.

End JS.

(** ** Data model ([src/types/cli-types.ts]) *)

(** A literal of [enum?: any[]]: a string, or any other JSON value,
    carried as the text [Array.prototype.join] prints for it (the numeral
    of a number, [true] or [false], and the empty text for [null]). *)
Inductive EnumValue : Type :=
| EString (s : string)
| ELiteral (rendered : string).

(** [interface Schema]; [example] is never read by the generators and is
    left out. *)
Inductive Schema : Type := mkSchema {
  type : string;
  format : option string;
  properties : option (list (string * Schema));
  items : option Schema;
  required : option (list string);
  enum : option (list EnumValue);
  description : option string;
  ref : option string
}.

Inductive ParamIn : Type := InPath | InQuery | InHeader | InCookie.

(** [interface Parameter] ([Parameter] is a reserved word here). *)
Record EndpointParameter : Type := mkParameter {
  param_name : string;
  param_in : ParamIn;
  param_required : bool;
  param_schema : Schema;
  param_description : option string
}.

Record MediaType : Type := mkMediaType { media_schema : Schema }.

Record RequestBody : Type := mkRequestBody {
  body_required : bool;
  body_content : list (string * MediaType)
}.

Record Response : Type := mkResponse {
  statusCode : string;
  response_description : string;
  response_content : option (list (string * MediaType))
}.

Record SwaggerEndpoint : Type := mkEndpoint {
  path : string;
  method : string;
  operationId : string;
  summary : option string;
  endpoint_description : option string;
  parameters : list EndpointParameter;
  requestBody : option RequestBody;
  responses : list Response;
  tags : option (list string)
}.

Record Info : Type := mkInfo {
  title : string;
  version : string;
  info_description : option string
}.

Record Server : Type := mkServer { url : string; server_description : option string }.

(** [interface ParsedSwagger]; [components], a copy of the document's own
    section, is not read by the generators and is left out. *)
Record ParsedSwagger : Type := mkParsedSwagger {
  info : Info;
  servers : list Server;
  endpoints : list SwaggerEndpoint;
  schemas : list (string * Schema)
}.

(** [obj[key]] on an object given by its entries. *)
Fixpoint lookupKey {A : Type} (key : string) (entries : list (string * A)) : option A :=
  match entries with
  | [] => None
  | (k, v) :: rest => if String.eqb k key then Some v else lookupKey key rest
  end.

(** ** The validated document handed to the parser

    The parser reads the document as an untyped object; these records list
    the fields it reads, each optional as in the document. *)

Inductive RawSchema : Type := mkRawSchema {
  raw_type : option string;
  raw_format : option string;
  raw_properties : option (list (string * RawSchema));
  raw_items : option RawSchema;
  raw_required : option (list string);
  raw_enum : option (list EnumValue);
  raw_description : option string;
  raw_ref : option string
}.

(** Schema objects held by reference: [properties] and [items] name
    other objects of the document, and following them may lead back to
    the object one started from.  This is the shape of a document whose
    references have been replaced by the objects they point to. *)
Record RawNode (Id : Type) : Type := mkRawNode {
  node_type : option string;
  node_format : option string;
  node_properties : option (list (string * Id));
  node_items : option Id;
  node_required : option (list string);
  node_enum : option (list EnumValue);
  node_description : option string;
  node_ref : option string
}.

Arguments mkRawNode {Id}.
Arguments node_type {Id}.
Arguments node_format {Id}.
Arguments node_properties {Id}.
Arguments node_items {Id}.
Arguments node_required {Id}.
Arguments node_enum {Id}.
Arguments node_description {Id}.
Arguments node_ref {Id}.

Definition SchemaGraph (Id : Type) : Type := Id -> RawNode Id.

(** A finite tree is the graph whose objects are its subtrees. *)
Definition treeGraph : SchemaGraph RawSchema :=
  fun schema =>
    mkRawNode (raw_type schema) (raw_format schema) (raw_properties schema)
      (raw_items schema) (raw_required schema) (raw_enum schema)
      (raw_description schema) (raw_ref schema).

Record RawParameter : Type := mkRawParameter {
  rawp_name : string;
  rawp_in : ParamIn;
  rawp_required : option bool;
  rawp_schema : option RawSchema;
  rawp_description : option string
}.

Record RawMediaType : Type := mkRawMediaType { rawm_schema : option RawSchema }.

Record RawRequestBody : Type := mkRawRequestBody {
  rawb_required : option bool;
  rawb_content : option (list (string * RawMediaType))
}.

Record RawResponse : Type := mkRawResponse {
  rawr_description : option string;
  rawr_content : option (list (string * RawMediaType))
}.

(** An operation; [raw_responses] lists the entries of [responses] in
    the order the document declares them. *)
Record RawOperation : Type := mkRawOperation {
  raw_operationId : option string;
  raw_summary : option string;
  raw_op_description : option string;
  raw_parameters : option (list RawParameter);
  raw_requestBody : option RawRequestBody;
  raw_responses : option (list (string * RawResponse));
  raw_tags : option (list string)
}.

(** A path item: its entries keyed by verb, in declaration order. *)
Definition PathItem : Type := list (string * RawOperation).

Record RawApi : Type := mkRawApi {
  api_info : Info;
  api_servers : option (list Server);
  api_paths : option (list (string * option PathItem));
  api_component_schemas : option (list (string * RawSchema))
}.

(** ** [SwaggerSpecParser] *)

Module SwaggerSpecParser.

(** The body of [parseSchema] for a schema that is present. *)
Fixpoint parseSchemaObject (schema : RawSchema) : Schema :=
  {| type := JS.optOrElse (raw_type schema) "object";
     format := raw_format schema;
     properties :=
       match raw_properties schema with
       | Some props => Some (map (fun entry => (fst entry, parseSchemaObject (snd entry))) props)
       | None => None
       end;
     items :=
       match raw_items schema with
       | Some it => Some (parseSchemaObject it)
       | None => None
       end;
     required := raw_required schema;
     enum := raw_enum schema;
     description := raw_description schema;
     ref := raw_ref schema |}.

Definition parseSchema (schema : option RawSchema) : Schema :=
  match schema with
  | None => mkSchema "any" None None None None None None None
  | Some s => parseSchemaObject s
  end.

(** [parseSchema] on an object of a graph.  The source recurses into
    [properties] and [items] without recording the objects it has passed;
    [stack] bounds the depth of nested calls, and [None] is the
    [RangeError] raised when the call stack is exhausted. *)
Fixpoint allOrNone {A : Type} (results : list (option A)) : option (list A) :=
  match results with
  | [] => Some []
  | Some x :: rest => option_map (cons x) (allOrNone rest)
  | None :: _ => None
  end.

Fixpoint parseSchemaGraph {Id : Type} (graph : SchemaGraph Id) (stack : nat) (schema : Id)
  : option Schema :=
  match stack with
  | O => None
  | S stack' =>
      let node := graph schema in
      let parsedProperties :=
        match node_properties node with
        | Some props =>
            option_map Some
              (allOrNone
                 (map (fun entry =>
                         option_map (pair (fst entry))
                           (parseSchemaGraph graph stack' (snd entry)))
                      props))
        | None => Some None
        end in
      let parsedItems :=
        match node_items node with
        | Some it => option_map Some (parseSchemaGraph graph stack' it)
        | None => Some None
        end in
      match parsedProperties, parsedItems with
      | Some properties, Some items =>
          Some {| type := JS.optOrElse (node_type node) "object";
                  format := node_format node;
                  properties := properties;
                  items := items;
                  required := node_required node;
                  enum := node_enum node;
                  description := node_description node;
                  ref := node_ref node |}
      | _, _ => None
      end
  end.

Definition parseParameter (param : RawParameter) : EndpointParameter :=
  {| param_name := rawp_name param;
     param_in := rawp_in param;
     param_required := default false (rawp_required param);
     param_schema := parseSchema (rawp_schema param);
     param_description := rawp_description param |}.

Definition parseContent (content : option (list (string * RawMediaType)))
  : list (string * MediaType) :=
  match content with
  | Some entries =>
      map (fun entry => (fst entry, mkMediaType (parseSchema (rawm_schema (snd entry))))) entries
  | None => []
  end.

Definition parseRequestBody (requestBody : RawRequestBody) : RequestBody :=
  {| body_required := default false (rawb_required requestBody);
     body_content := parseContent (rawb_content requestBody) |}.

Definition parseResponse (statusCode : string) (response : RawResponse) : Response :=
  let content := parseContent (rawr_content response) in
  {| statusCode := statusCode;
     response_description := JS.optOrElse (rawr_description response) "";
     response_content := match content with [] => None | _ => Some content end |}.

Definition parseOperation (path method : string) (operation : RawOperation) : SwaggerEndpoint :=
  {| path := path;
     method := JS.toUpperCase method;
     operationId :=
       JS.optOrElse (raw_operationId operation) (method ++ JS.stripNonAlnum path);
     summary := raw_summary operation;
     endpoint_description := raw_op_description operation;
     parameters :=
       match raw_parameters operation with
       | Some params => map parseParameter params
       | None => []
       end;
     requestBody := option_map parseRequestBody (raw_requestBody operation);
     responses :=
       match raw_responses operation with
       | Some declared =>
           map (fun entry => parseResponse (fst entry) (snd entry)) (JS.entries declared)
       | None => []
       end;
     tags := raw_tags operation |}.

Definition methods : list string :=
  ["get"; "post"; "put"; "patch"; "delete"; "options"; "head"].

(** The inner loop of [parse]: the endpoints pushed for one path. *)
Definition parsePathItem (path : string) (pathItem : option PathItem) : list SwaggerEndpoint :=
  match pathItem with
  | None => []
  | Some item =>
      flat_map (fun method =>
                  match lookupKey method item with
                  | Some operation => [parseOperation path method operation]
                  | None => []
                  end) methods
  end.

(** [parse], past the call to the external validator. *)
Definition parse (api : RawApi) : ParsedSwagger :=
  {| info := api_info api;
     servers := default [] (api_servers api);
     endpoints :=
       match api_paths api with
       | Some paths => flat_map (fun entry => parsePathItem (fst entry) (snd entry)) paths
       | None => []
       end;
     schemas :=
       match api_component_schemas api with
       | Some entries => map (fun entry => (fst entry, parseSchema (Some (snd entry)))) entries
       | None => []
       end |}.

End SwaggerSpecParser.

(** ** Helpers shared by the generators *)

Definition nl : string := String "010"%char EmptyString.

(** [ref.split('/').pop() || fallback] *)
Definition refTarget (r fallback : string) : string :=
  JS.optOrElse (JS.lastElem (JS.split "/" r)) fallback.

(** [schema.$ref] when it is truthy. *)
Definition truthyRef (schema : Schema) : option string :=
  match ref schema with
  | Some r => if JS.truthy r then Some r else None
  | None => None
  end.

(** [schema.enum.map(value => typeof value === 'string' ? `'${value}'` : value).join(' | ')] *)
Definition renderEnumValue (value : EnumValue) : string :=
  match value with
  | EString s => "'" ++ s ++ "'"
  | ELiteral rendered => rendered
  end.

Definition renderEnum (values : list EnumValue) : string :=
  JS.join " | " (map renderEnumValue values).

(** [schema.required?.includes(propName) || false] *)
Definition isRequired (schema : Schema) (propName : string) : bool :=
  match required schema with
  | Some names => existsb (String.eqb propName) names
  | None => false
  end.

(** [isRequired ? '' : '?'] *)
Definition optionalMark (isRequired : bool) : string := if isRequired then "" else "?".

(** ** [TypeGenerator] ([src/generator/type-generator.ts]) *)

Module TypeGenerator.

Definition toPascalCase (str : string) : string := JS.capitalizeWords str.

Definition mapSwaggerTypeToTypeScript (swaggerType : string) : string :=
  if String.eqb swaggerType "integer" then "number"
  else if String.eqb swaggerType "number" then "number"
  else if String.eqb swaggerType "string" then "string"
  else if String.eqb swaggerType "boolean" then "boolean"
  else if String.eqb swaggerType "array" then "any[]"
  else if String.eqb swaggerType "object" then "Record<string, any>"
  else "any".

(** The recursion follows the source's chain of tests; the tests on
    [schema.type] are placed inside the matches on [items] and
    [properties] so that the recursive calls are on direct components. *)
Fixpoint generateTypeFromSchema (schema : Schema) : string :=
  let objectOrPrimitive :=
    match properties schema with
    | Some props =>
        if String.eqb (type schema) "object"
        then
          "{ " ++
          JS.join "; "
            (map (fun entry =>
                    fst entry ++ optionalMark (isRequired schema (fst entry)) ++ ": " ++
                    generateTypeFromSchema (snd entry)) props) ++
          " }"
        else mapSwaggerTypeToTypeScript (type schema)
    | None => mapSwaggerTypeToTypeScript (type schema)
    end in
  let enumOrLater :=
    match enum schema with
    | Some values => renderEnum values
    | None => objectOrPrimitive
    end in
  match truthyRef schema with
  | Some r => toPascalCase (refTarget r "unknown")
  | None =>
      match items schema with
      | Some itemSchema =>
          if String.eqb (type schema) "array"
          then generateTypeFromSchema itemSchema ++ "[]"
          else enumOrLater
      | None => enumOrLater
      end
  end.

(** One line of an interface body, with the property's doc comment. *)
Definition interfaceLine (schema : Schema) (entry : string * Schema) : string :=
  let propName := fst entry in
  let propSchema := snd entry in
  let comment :=
    match description propSchema with
    | Some d => if JS.truthy d then "  /** " ++ d ++ " */" ++ nl else ""
    | None => ""
    end in
  comment ++ "  " ++ propName ++ optionalMark (isRequired schema propName) ++ ": " ++
  generateTypeFromSchema propSchema ++ ";" ++ nl.

Definition generateInterface (name : string) (schema : Schema) : string :=
  let interfaceName := toPascalCase name in
  match truthyRef schema with
  | Some r => "export type " ++ interfaceName ++ " = " ++ toPascalCase (refTarget r name) ++ ";"
  | None =>
      match (if String.eqb (type schema) "array" then items schema else None) with
      | Some itemSchema =>
          "export type " ++ interfaceName ++ " = " ++ generateTypeFromSchema itemSchema ++ "[];"
      | None =>
          match enum schema with
          | Some values => "export type " ++ interfaceName ++ " = " ++ renderEnum values ++ ";"
          | None =>
              if String.eqb (type schema) "object" || bool_decide (is_Some (properties schema))
              then
                let interfaceBody :=
                  match properties schema with
                  | Some props => String.concat "" (map (interfaceLine schema) props)
                  | None => ""
                  end in
                "export interface " ++ interfaceName ++ " {" ++ nl ++ interfaceBody ++ "}"
              else
                "export type " ++ interfaceName ++ " = " ++
                mapSwaggerTypeToTypeScript (type schema) ++ ";"
          end
      end
  end.

(** The per-endpoint part of [generateEndpointTypes]: the request
    interface, emitted when the endpoint has a request body. *)
Definition requestInterface (endpoint : SwaggerEndpoint) : string :=
  let operationName := toPascalCase (operationId endpoint) in
  match requestBody endpoint with
  | Some body =>
      let pathParams :=
        List.filter (fun param => match param_in param with InPath => true | _ => false end)
                    (parameters endpoint) in
      let queryParams :=
        List.filter (fun param => match param_in param with InQuery => true | _ => false end)
                    (parameters endpoint) in
      "export interface " ++ operationName ++ "Request {" ++ nl ++
      String.concat ""
        (map (fun param =>
                "  " ++ param_name param ++ ": " ++
                generateTypeFromSchema (param_schema param) ++ ";" ++ nl) pathParams) ++
      (if negb (Nat.eqb (length queryParams) 0)
       then
         "  params?: {" ++ nl ++
         String.concat ""
           (map (fun param =>
                   "    " ++ param_name param ++ (if param_required param then "" else "?") ++
                   ": " ++ generateTypeFromSchema (param_schema param) ++ ";" ++ nl)
                queryParams) ++
         "  };" ++ nl
       else "") ++
      String.concat ""
        (map (fun entry =>
                if String.eqb (fst entry) "application/json"
                then "  body: " ++ generateTypeFromSchema (media_schema (snd entry)) ++ ";" ++ nl
                else "")
             (body_content body)) ++
      "}" ++ nl ++ nl
  | None => ""
  end.

(** The per-endpoint part of [generateEndpointTypes]: the response type. *)
Definition responseTypes (endpoint : SwaggerEndpoint) : string :=
  let operationName := toPascalCase (operationId endpoint) in
  let voidResponse := "export type " ++ operationName ++ "Response = ApiResponse<void>;" ++ nl in
  match List.find (fun r => JS.startsWith "2" (statusCode r)) (responses endpoint) with
  | Some successResponse =>
      match response_content successResponse with
      | Some content =>
          String.concat ""
            (map (fun entry =>
                    if String.eqb (fst entry) "application/json"
                    then
                      "export type " ++ operationName ++ "Response = ApiResponse<" ++
                      generateTypeFromSchema (media_schema (snd entry)) ++ ">;" ++ nl
                    else "")
                 content)
      | None => voidResponse
      end
  | None => voidResponse
  end.

Definition generateEndpointTypes (parsedSwagger : ParsedSwagger) : string :=
  "// Endpoint-specific types" ++ nl ++ nl ++
  String.concat ""
    (map (fun endpoint => requestInterface endpoint ++ responseTypes endpoint ++ nl)
         (endpoints parsedSwagger)).

(** The content of [index.types.ts]. *)
Definition generateTypeDefinitions (parsedSwagger : ParsedSwagger) : string :=
  "// Generated TypeScript interfaces from Swagger specification" ++ nl ++
  "// API: " ++ title (info parsedSwagger) ++ " v" ++ version (info parsedSwagger) ++ nl ++
  match info_description (info parsedSwagger) with
  | Some d => if JS.truthy d then "// " ++ d else ""
  | None => ""
  end ++
  "

// Common types
export interface ApiResponse<T = any> {
  data: T;
  status: number;
  statusText: string;
  headers: Record<string, string>;
}

export interface ApiError {
  message: string;
  status: number;
  details?: any;
}

export interface PaginatedResponse<T> {
  data: T[];
  total: number;
  page: number;
  pageSize: number;
  hasNext: boolean;
  hasPrevious: boolean;
}

" ++
  String.concat ""
    (map (fun entry => generateInterface (fst entry) (snd entry) ++ nl) (schemas parsedSwagger)) ++
  generateEndpointTypes parsedSwagger.

(** The file written by [generate], relative to [outputDir]. *)
Definition generate (parsedSwagger : ParsedSwagger) : list (string * string) :=
  [("index.types.ts", generateTypeDefinitions parsedSwagger)].

End TypeGenerator.


(** ** Grouping of endpoints by controller

    [groups] starts as the plain object [{}].  Its own properties are kept
    in creation order; [Object.entries(groups)] yields them in the order
    of [JS.entries]. *)

(** [endpoint.tags?.[0] || 'default'] *)
Definition firstTag (endpoint : SwaggerEndpoint) : option string :=
  match tags endpoint with
  | Some (tag :: _) => Some tag
  | _ => None
  end.

Definition controllerOf (endpoint : SwaggerEndpoint) : string :=
  JS.optOrElse (firstTag endpoint) "default".

(** The own properties after [groups[key]] has been created if missing
    and [endpoint] pushed to it. *)
Fixpoint pushToGroup (key : string) (endpoint : SwaggerEndpoint)
  (groups : list (string * list SwaggerEndpoint)) : list (string * list SwaggerEndpoint) :=
  match groups with
  | [] => [(key, [endpoint])]
  | (k, members) :: rest =>
      if String.eqb k key then (k, (members ++ [endpoint])%list) :: rest
      else (k, members) :: pushToGroup key endpoint rest
  end.

(** [if (!groups[key]) groups[key] = []; groups[key].push(endpoint)].

    An own property holds an array, which is truthy.  Without an own
    property, a key that [Object.prototype] provides still yields a value
    (a function, or the prototype under [__proto__]): the test fails,
    nothing is created, and [push] is not a function of that value.
    [None] is the [TypeError] raised then. *)
Definition pushEndpoint (key : string) (endpoint : SwaggerEndpoint)
  (groups : list (string * list SwaggerEndpoint))
  : option (list (string * list SwaggerEndpoint)) :=
  match lookupKey key groups with
  | Some _ => Some (pushToGroup key endpoint groups)
  | None => if JS.inherited key then None else Some (pushToGroup key endpoint groups)
  end.

(** [set.add(x)] on a [Set] kept in insertion order. *)
Definition setAdd (x : string) (set : list string) : list string :=
  if existsb (String.eqb x) set then set else (set ++ [x])%list.

(** ** [ApiGenerator] ([src/generator/api-generator.ts]) *)

Module ApiGenerator.

Definition toPascalCase (str : string) : string := JS.capitalizeWords str.

Definition toCamelCase (str : string) : string :=
  let pascalCase := toPascalCase str in
  JS.toLowerCase (JS.charAt0 pascalCase) ++ JS.slice1 pascalCase.

(** The own properties of [groups] in creation order; [None] when the
    loop is left by a [TypeError]. *)
Definition groupEndpointsByController (endpoints : list SwaggerEndpoint)
  : option (list (string * list SwaggerEndpoint)) :=
  fold_left (fun groups endpoint =>
               let controller := controllerOf endpoint in
               let controllerKey := JS.toLowerCase controller in
               match groups with
               | Some own => pushEndpoint controllerKey endpoint own
               | None => None
               end)
            endpoints (Some []).

(** [path.split('/').filter(part => part && !part.startsWith('{'))] *)
Definition pathParts (path : string) : list string :=
  List.filter (fun part => JS.truthy part && negb (JS.startsWith "{" part)) (JS.split "/" path).

Definition generateFunctionName (endpoint : SwaggerEndpoint) : string :=
  if JS.truthy (operationId endpoint) then toCamelCase (operationId endpoint)
  else
    let method := JS.toLowerCase (method endpoint) in
    let resourceName := JS.optOrElse (JS.lastElem (pathParts (path endpoint))) "resource" in
    method ++ toPascalCase resourceName.

Definition generateDbFunctionName (endpoint : SwaggerEndpoint) : string :=
  let method := JS.toLowerCase (method endpoint) in
  if String.eqb method "get"
  then (if JS.includes "{" (path endpoint) then "findById" else "findAll")
  else if String.eqb method "post" then "create"
  else if String.eqb method "put" then "update"
  else if String.eqb method "patch" then "update"
  else if String.eqb method "delete" then "delete"
  else "query".

Definition isPathParam (p : EndpointParameter) : bool :=
  match param_in p with InPath => true | _ => false end.
Definition isQueryParam (p : EndpointParameter) : bool :=
  match param_in p with InQuery => true | _ => false end.

(** [s.replace(/, $/, '')] *)
Fixpoint dropTrailingComma (s : string) : string :=
  match s with
  | EmptyString => EmptyString
  | String c s' => if String.eqb s ", " then EmptyString else String c (dropTrailingComma s')
  end.

Definition generateDbFunctionParams (endpoint : SwaggerEndpoint) : string :=
  let pathParams := List.filter isPathParam (parameters endpoint) in
  let queryParams := List.filter isQueryParam (parameters endpoint) in
  let hasRequestBody :=
    bool_decide (is_Some (requestBody endpoint)) && negb (String.eqb (method endpoint) "GET") in
  let params := String.concat "" (map (fun param => param_name param ++ ", ") pathParams) in
  let params := if negb (Nat.eqb (length queryParams) 0) then params ++ "params, " else params in
  let params := if hasRequestBody then params ++ "body, " else params in
  dropTrailingComma params.

(** A JavaScript number holding an integer, or [None] for [NaN]. *)
Definition getSuccessStatusCode (endpoint : SwaggerEndpoint) : option Z :=
  match List.find (fun r => JS.startsWith "2" (statusCode r)) (responses endpoint) with
  | Some successResponse => JS.parseInt10 (statusCode successResponse)
  | None =>
      let method := JS.toLowerCase (method endpoint) in
      if String.eqb method "post" then Some 201%Z
      else if String.eqb method "delete" then Some 204%Z
      else Some 200%Z
  end.

Definition getSuccessStatusText (endpoint : SwaggerEndpoint) : string :=
  match getSuccessStatusCode endpoint with
  | Some 200%Z => "OK"
  | Some 201%Z => "Created"
  | Some 204%Z => "No Content"
  | _ => "Success"
  end.

Definition getErrorStatusCode (endpoint : SwaggerEndpoint) : option Z :=
  match List.find (fun r => JS.startsWith "4" (statusCode r)) (responses endpoint) with
  | Some errorResponse => JS.parseInt10 (statusCode errorResponse)
  | None => Some 400%Z
  end.

Definition mapSchemaToTypeScript (schema : Schema) : string :=
  let t := type schema in
  if String.eqb t "integer" then "number"
  else if String.eqb t "number" then "number"
  else if String.eqb t "string" then "string"
  else if String.eqb t "boolean" then "boolean"
  else if String.eqb t "array" then "any[]"
  else "any".

(** [endpoint.requestBody && endpoint.method !== 'GET'] *)
Definition hasRequestBody (endpoint : SwaggerEndpoint) : bool :=
  bool_decide (is_Some (requestBody endpoint)) && negb (String.eqb (method endpoint) "GET").

(** The array of argument names that [generateApiFunction] joins into the
    logging statement of the emitted function. *)
Definition loggedArgumentNames (endpoint : SwaggerEndpoint) : list string :=
  let pathParams := List.filter isPathParam (parameters endpoint) in
  let queryParams := List.filter isQueryParam (parameters endpoint) in
  (map param_name pathParams ++
   (if negb (Nat.eqb (length queryParams) 0) then ["params"] else []) ++
   (if hasRequestBody endpoint then ["body"] else []))%list.

Definition loggedArguments (endpoint : SwaggerEndpoint) : string :=
  JS.join ", " (loggedArgumentNames endpoint).

(** [parameterList] of [generateApiFunction]: the typed parameters of the
    emitted function. *)
Definition parameterList (endpoint : SwaggerEndpoint) : string :=
  let pathParams := List.filter isPathParam (parameters endpoint) in
  let queryParams := List.filter isQueryParam (parameters endpoint) in
  let parameterList :=
    String.concat ""
      (map (fun param =>
              param_name param ++ ": " ++ mapSchemaToTypeScript (param_schema param) ++ ", ")
           pathParams) in
  let parameterList :=
    if negb (Nat.eqb (length queryParams) 0)
    then
      parameterList ++ "params?: { " ++
      String.concat ""
        (map (fun param =>
                param_name param ++ (if param_required param then "" else "?") ++ ": " ++
                mapSchemaToTypeScript (param_schema param) ++ "; ")
             queryParams) ++
      " }, "
    else parameterList in
  let parameterList := if hasRequestBody endpoint then parameterList ++ "body: any, " else parameterList in
  dropTrailingComma parameterList.

End ApiGenerator.


(** ** [DbGenerator] ([src/generator/db-generator.ts])

    The text of the generated files is a template with holes.  The holes
    and the text of [seedData()] are written out; the two long fixed
    stretches (the body of [db-setup.ts] around the list of store names,
    and the CRUD methods of a database class) are taken as given functions
    of what fills their holes.  Seed records are opaque payloads, printed by
    [JSON.stringify(seedData, null, 4)]. *)

Module DbGenerator.

(** How a run of [generate] ends. *)
Inductive Completion : Type := Returned | ThrewTypeError.

Definition toPascalCase (str : string) : string := JS.capitalizeWords str.

(** The own properties of [groups] in creation order; [None] when the
    loop is left by a [TypeError]. *)
Definition groupEndpointsByController (endpoints : list SwaggerEndpoint)
  : option (list (string * list SwaggerEndpoint)) :=
  fold_left (fun groups endpoint =>
               let controller := controllerOf endpoint in
               let controllerKey := JS.toLowerCase controller in
               match groups with
               | Some own => pushEndpoint controllerKey endpoint own
               | None => None
               end)
            endpoints (Some []).

Definition getUniqueControllers (parsedSwagger : ParsedSwagger) : list string :=
  fold_left (fun controllers endpoint =>
               let tag := controllerOf endpoint in
               setAdd (JS.toLowerCase tag) controllers)
            (endpoints parsedSwagger) [].

Section Templates.

Variable SeedRecord : Type.
Variable JSON_stringify : list SeedRecord -> string.
(** [db-setup.ts], as a function of the text listing the store names. *)
Variable dbSetupTemplate : string -> string.
(** The methods [init] to [importAll] of a database class, as a function
    of [controller] and [controllerName]. *)
Variable crudMethodsTemplate : string -> string -> string.

Definition generateDbSetup (parsedSwagger : ParsedSwagger) : string :=
  dbSetupTemplate
    (JS.join ("," ++ nl ++ "      ")
       (map (fun controller => "'" ++ controller ++ "'") (getUniqueControllers parsedSwagger))).

(** [seedData && seedData.length > 0] *)
Definition hasSeedRecords (seedData : option (list SeedRecord)) : bool :=
  match seedData with
  | Some records => negb (Nat.eqb (length records) 0)
  | None => false
  end.

(** The text emitted when seed records are supplied. *)
Definition seedText (controllerName : string) (records : list SeedRecord) : string :=
  "
    const seedRecords = " ++
  JSON_stringify records ++
  ";
    
    await this.init();
    
    // Check if data already exists
    const existingRecords = await this.findAll();
    if (existingRecords.length > 0) {
      console.log(`" ++
  controllerName ++
  " database already contains data, skipping seed`);
      return;
    }
    
    // Convert seed data to database records
    const dbRecords = seedRecords.map(item => createDbRecord(item));
    
    // Import the seed data
    await this.importAll(dbRecords);
    
    console.log(`Seeded " ++
  controllerName ++
  " database with ${dbRecords.length} records`);
    ".

(** The text emitted otherwise. *)
Definition noSeedText (controllerName : string) : string :=
  "
    console.log(`No seed data provided for " ++
  controllerName ++
  "`);
    ".

(** The body of the generated [seedData()] method:
    [seedData && seedData.length > 0 ? ... : ...]. *)
Definition seedDataBody (controllerName : string) (seedData : option (list SeedRecord)) : string :=
  if hasSeedRecords seedData
  then seedText controllerName (default [] seedData)
  else noSeedText controllerName.

Definition generateDbFile (controller : string) (endpoints : list SwaggerEndpoint)
  (parsedSwagger : ParsedSwagger) (seedData : option (list SeedRecord)) : string :=
  let controllerName := toPascalCase controller in
  "// Generated Database operations for " ++
  controllerName ++
  "
import { 
  dbManager, 
  DbRecord, 
  createDbRecord, 
  updateDbRecord, 
  queryByFilter, 
  sortRecords, 
  paginateRecords 
} from './db-setup';

export class " ++
  controller ++
  "Database {
  private readonly storeName = '" ++
  controller ++
  "';

" ++
  crudMethodsTemplate controller controllerName ++
  "  /**
   * Seed the database with initial data
   */
  async seedData(): Promise<void> {
    " ++
  seedDataBody controllerName seedData ++
  "
  }
}
".

(** [seedData?.[controller] || null] *)
Definition controllerSeedData (seedData : option (gmap string (list SeedRecord)))
  (controller : string) : option (list SeedRecord) :=
  match seedData with
  | Some data => data !! controller
  | None => None
  end.

(** [generate]: the [fs.writeFile] calls made, in order, and how the run
    ends.  A call is recorded by the name joined to [outputDir] (the second
    argument of [path.join]) and the content.  [db-setup.ts] is written
    before the endpoints are grouped, so it is there also when the
    grouping raises. *)
Definition generate (parsedSwagger : ParsedSwagger)
  (seedData : option (gmap string (list SeedRecord)))
  : list (string * string) * Completion :=
  let dbSetupContent := generateDbSetup parsedSwagger in
  let written := [("db-setup.ts", dbSetupContent)] in
  match groupEndpointsByController (endpoints parsedSwagger) with
  | None => (written, ThrewTypeError)
  | Some controllerGroups =>
      (List.app written
         (map (fun group =>
                 let controller := fst group in
                 let endpoints := snd group in
                 (controller ++ "-db.ts",
                  generateDbFile controller endpoints parsedSwagger
                    (controllerSeedData seedData controller)))
              (JS.entries controllerGroups)),
       Returned)
  end.

End Templates.

End DbGenerator.

(** ** [loadSeedData] ([src/cli/commands.ts])

    The file system is given by what it answers: whether the seed file
    exists, and what reading it as JSON yields (an error message, or the
    parsed content).  The warnings printed are collected in order, without
    their colouring. *)

Module Commands.

Section SeedFile.

Variable SeedRecord : Type.

(** A value of the seed object: an array of records, or anything else. *)
Inductive SeedValue : Type :=
| SeedArray (records : list SeedRecord)
| SeedOther.

(** The parsed seed file: an object with its entries as the file declares
    them, an array with its elements, or a value whose [typeof] is not
    ['object'] or that is [null]. *)
Inductive SeedContent : Type :=
| SeedObject (declared : list (string * SeedValue))
| SeedTopArray (elements : list SeedValue)
| SeedNotObject.

(** [Object.entries(seedContent)] past the [typeof] test: an array is
    entered under the numerals of its indices. *)
Definition indexKey (index : nat) : string := NilZero.string_of_uint (Nat.to_uint index).

Definition seedEntries (seedContent : SeedContent) : list (string * SeedValue) :=
  match seedContent with
  | SeedObject declared => JS.entries declared
  | SeedTopArray elements => combine (map indexKey (seq 0 (length elements))) elements
  | SeedNotObject => []
  end.

(** [validatedSeedData]: its own properties and, when an assignment
    reached the [__proto__] setter, the array that replaced its prototype. *)
Record ValidatedSeed : Type := mkValidatedSeed {
  seed_own : gmap string (list SeedRecord);
  seed_prototype : option (list SeedRecord)
}.

Definition notArrayWarning (key : string) : string :=
  "Warning: Seed data for '" ++ key ++ "' is not an array, skipping".

(** [validatedSeedData[key] = value]: under [__proto__] the assignment
    runs the setter of [Object.prototype] and creates no property. *)
Definition assignSeed (key : string) (records : list SeedRecord) (validated : ValidatedSeed)
  : ValidatedSeed :=
  if String.eqb key "__proto__"
  then mkValidatedSeed (seed_own validated) (Some records)
  else mkValidatedSeed (<[key := records]> (seed_own validated)) (seed_prototype validated).

(** The loop that keeps the array values. *)
Definition validateSeedData (entries : list (string * SeedValue))
  : ValidatedSeed * list string :=
  fold_left
    (fun state entry =>
       match snd entry with
       | SeedArray records => (assignSeed (fst entry) records (fst state), snd state)
       | SeedOther =>
           (fst state, (snd state ++ [notArrayWarning (fst entry)])%list)
       end)
    entries (mkValidatedSeed ∅ None, []).

Definition loadFailure (seed message : string) : string :=
  "Warning: Could not load seed file " ++ seed ++ ": " ++ message.

Definition loadSeedData (seed : option string) (pathExists : bool)
  (readJson : string + SeedContent)
  : option ValidatedSeed * list string :=
  match seed with
  | None => (None, [])
  | Some seedPath =>
      if negb (JS.truthy seedPath) then (None, [])
      else if negb pathExists
      then (None, ["Warning: Seed file not found: " ++ seedPath])
      else
        match readJson with
        | inl message => (None, [loadFailure seedPath message])
        | inr SeedNotObject => (None, [loadFailure seedPath "Seed data must be a JSON object"])
        | inr seedContent =>
            let validated := validateSeedData (seedEntries seedContent) in
            (Some (fst validated), snd validated)
        end
  end.

End SeedFile.

End Commands.


(** The loop of [TypeGenerator.generateTypeDefinitions] over the named
    schemas: one interface or type alias per entry, each followed by a line
    break. *)
Definition generateInterfaces (parsedSwagger : ParsedSwagger) : string :=
  String.concat ""
    (map (fun entry => TypeGenerator.generateInterface (fst entry) (snd entry) ++ nl)
         (schemas parsedSwagger)).

(** ** Constructors for the examples *)

Definition plainSchema (ty : string) : Schema :=
  mkSchema ty None None None None None None None.

Definition refSchema (target : string) : Schema :=
  mkSchema "object" None None None None None None (Some target).

Definition objectSchema (props : list (string * Schema)) (req : option (list string)) : Schema :=
  mkSchema "object" None (Some props) None req None None None.

Definition simpleEndpoint (path method operationId : string) (responses : list Response)
  (tags : option (list string)) : SwaggerEndpoint :=
  mkEndpoint path method operationId None None [] None responses tags.

Definition bareOperation : RawOperation :=
  mkRawOperation None None None None None None None.

(** ** Notions used to state the properties *)

(** *** Path shapes and the database operation *)

(** [s.endsWith("}")] *)
Fixpoint endsWithBrace (s : string) : bool :=
  match s with
  | EmptyString => false
  | String c EmptyString => Ascii.eqb c "}"
  | String _ s' => endsWithBrace s'
  end.

(** A segment of the form [{param}]. *)
Definition isPlaceholder (seg : string) : bool :=
  JS.startsWith "{" seg && endsWithBrace seg.

(** The trailing segment of the path is a [{param}] placeholder. *)
Definition trailingPlaceholder (path : string) : bool :=
  match JS.lastElem (JS.split "/" path) with
  | Some seg => isPlaceholder seg
  | None => false
  end.

Definition isGet (endpoint : SwaggerEndpoint) : Prop :=
  JS.toLowerCase (method endpoint) = "get".

(** The claim as the specification words it. *)
Definition get_by_id_iff_trailing_placeholder : Prop :=
  forall endpoint : SwaggerEndpoint,
    isGet endpoint ->
    (ApiGenerator.generateDbFunctionName endpoint = "findById" <->
     trailingPlaceholder (path endpoint) = true).

Definition nestedListEndpoint : SwaggerEndpoint :=
  simpleEndpoint "/users/{userId}/posts" "GET" "listUserPosts" [] (Some ["users"]).

(** *** Status codes *)

(** The longest prefix of decimal digits, and the number a string of
    digits denotes. *)
Fixpoint leadingDigits (s : string) : string :=
  match s with
  | EmptyString => EmptyString
  | String c s' => if JS.isDigit c then String c (leadingDigits s') else EmptyString
  end.

Fixpoint decimalValue (s : string) : Z :=
  match s with
  | EmptyString => 0
  | String c s' => JS.digitVal c * 10 ^ Z.of_nat (String.length s') + decimalValue s'
  end.

Fixpoint allDigits (s : string) : bool :=
  match s with
  | EmptyString => true
  | String c s' => JS.isDigit c && allDigits s'
  end.

(** A response whose status code begins with [2]. *)
Definition isSuccessResponse (r : Response) : bool := JS.startsWith "2" (statusCode r).

(** [r] is the first response of the list whose status code begins with
    [2]. *)
Definition firstSuccessResponse (listed : list Response) (r : Response) : Prop :=
  exists before after : list Response,
    listed = (before ++ r :: after)%list /\
    Forall (fun x => isSuccessResponse x = false) before /\
    isSuccessResponse r = true.

Definition noSuccessResponse (listed : list Response) : Prop :=
  Forall (fun x => isSuccessResponse x = false) listed.

(** [code] is the first status code beginning with [2] in the order in
    which the operation declares its responses. *)
Definition firstDeclaredSuccess (declared : list (string * RawResponse)) (code : string) : Prop :=
  exists (before : list (string * RawResponse)) (response : RawResponse)
         (after : list (string * RawResponse)),
    declared = (before ++ (code, response) :: after)%list /\
    Forall (fun entry => JS.startsWith "2" (fst entry) = false) before /\
    JS.startsWith "2" code = true.

(** The statement of the specification, for the operations of a document:
    the emitted number is read from the first declared success code. *)
Definition success_code_is_first_declared : Prop :=
  forall (path verb : string) (operation : RawOperation)
         (declared : list (string * RawResponse)) (code : string),
    raw_responses operation = Some declared ->
    firstDeclaredSuccess declared code ->
    ApiGenerator.getSuccessStatusCode (SwaggerSpecParser.parseOperation path verb operation)
    = JS.parseInt10 code.

(** A status code that is an array index beginning with [2]. *)
Definition isIndexedSuccess (code : string) : bool :=
  JS.isArrayIndex code && JS.startsWith "2" code.

(** Entries compared by the numbers their keys denote. *)
Definition indexLe {A : Type} (a b : string * A) : Prop :=
  (JS.indexValue (fst a) <= JS.indexValue (fst b))%Z.

Definition operationWithResponses (declared : list (string * RawResponse)) : RawOperation :=
  mkRawOperation (Some "createPet") None None None None (Some declared) (Some ["pets"]).

(** An operation that declares [201] before [200]. *)
Definition createdBeforeOk : RawOperation :=
  operationWithResponses
    [("201", mkRawResponse (Some "Created") None); ("200", mkRawResponse (Some "OK") None)].

Definition createPetOperation : RawOperation :=
  operationWithResponses
    [("default", mkRawResponse (Some "unexpected error") None);
     ("404", mkRawResponse (Some "Not found") None);
     ("201", mkRawResponse (Some "Created") None)].

Definition deleteEndpoint : SwaggerEndpoint :=
  simpleEndpoint "/pets/{petId}" "DELETE" "deletePet" [] (Some ["pets"]).

(** *** Function names *)

(** A segment that is neither empty nor a [{param}] placeholder. *)
Definition isResourceSegment (part : string) : bool :=
  JS.truthy part && negb (JS.startsWith "{" part).

(** [seg] is the last non-parameter segment of [path]. *)
Definition lastResourceSegment (path seg : string) : Prop :=
  exists before after : list string,
    JS.split "/" path = (before ++ seg :: after)%list /\
    isResourceSegment seg = true /\
    Forall (fun part => isResourceSegment part = false) after.

(** C2 as the specification words it, for operations read from a
    document that declares no identifier. *)
Definition undeclared_id_named_by_verb_and_segment : Prop :=
  forall (path method seg : string) (operation : RawOperation),
    In method SwaggerSpecParser.methods ->
    raw_operationId operation = None ->
    lastResourceSegment path seg ->
    ApiGenerator.generateFunctionName (SwaggerSpecParser.parseOperation path method operation) =
    method ++ ApiGenerator.toPascalCase seg.

Definition profilesEndpoint : SwaggerEndpoint :=
  simpleEndpoint "/users/profiles" "GET" "" [mkResponse "200" "Success" None] (Some ["users"]).

(** Strings made of letters and digits only. *)
Fixpoint onlyAlnum (s : string) : bool :=
  match s with
  | EmptyString => true
  | String c s' => JS.isAlnum c && onlyAlnum s'
  end.

(** *** Resolved types *)

(** The property fragment of an inline object type:
    [`${propName}${optional}: ${propType}`]. *)
Definition inlineProperty (schema : Schema) (entry : string * Schema) : string :=
  fst entry ++ optionalMark (isRequired schema (fst entry)) ++ ": " ++
  TypeGenerator.generateTypeFromSchema (snd entry).

(** The doc comment that precedes a described property in an interface. *)
Definition docComment (propSchema : Schema) : string :=
  match description propSchema with
  | Some d => if JS.truthy d then "  /** " ++ d ++ " */" ++ nl else ""
  | None => ""
  end.

(** The names in the schema's required set. *)
Definition requiredSet (schema : Schema) : list string := default [] (required schema).

(** C3 as the specification words it: a reference whose target is not in
    the table of named schemas resolves to [any]. *)
Definition unresolved_reference_is_any : Prop :=
  forall (parsedSwagger : ParsedSwagger) (schema : Schema) (r : string),
    truthyRef schema = Some r ->
    lookupKey (refTarget r "unknown") (schemas parsedSwagger) = None ->
    TypeGenerator.generateTypeFromSchema schema = "any".

(** A name without [/]. *)
Fixpoint slashFree (name : string) : bool :=
  match name with
  | EmptyString => true
  | String c rest => negb (Ascii.eqb c "/") && slashFree rest
  end.

Definition petInfo : Info := mkInfo "Pet Store API" "1.0.0" None.

(** A document whose only schema refers to an undefined one. *)
Definition danglingDocument : ParsedSwagger :=
  mkParsedSwagger petInfo [] []
    [("Holder", objectSchema [("owner", refSchema "#/components/schemas/Missing")] None)].

(** A schema that names another one by a [$ref] string. *)
Definition schemaA : Schema := objectSchema [("b", refSchema "#/components/schemas/B")] None.
Definition idNameSchema : Schema :=
  objectSchema [("id", plainSchema "string"); ("name", plainSchema "string")] (Some ["id"]).

Definition taggedEndpoint (tag : string) : SwaggerEndpoint :=
  simpleEndpoint "/profiles" "GET" "listProfiles" [] (Some [tag]).

(** The statement of the specification: a name yields the same emitted
    identifier as the name of a schema and as the first tag of an
    operation. *)
Definition canonical_identifier_is_shared : Prop :=
  forall name : string,
    JS.truthy name = true ->
    DbGenerator.toPascalCase (JS.toLowerCase (controllerOf (taggedEndpoint name)))
    = TypeGenerator.toPascalCase name.

(** *** The order of parsed operations *)

(** [pathItem[method]] is present. *)
Definition declares (item : PathItem) (method : string) : bool :=
  match lookupKey method item with Some _ => true | None => false end.

(** The verbs under a path item, in the order the document declares them. *)
Definition declaredVerbs (item : PathItem) : list string :=
  List.filter (fun key => existsb (String.eqb key) SwaggerSpecParser.methods) (map fst item).

(** The verbs under a path item, in the parser's fixed order. *)
Definition verbsInFixedOrder (item : PathItem) : list string :=
  List.filter (declares item) SwaggerSpecParser.methods.

(** The (path, verb) pairs of a document: paths in declaration order, and
    under each path the verbs in the parser's fixed order. *)
Definition operationKeys (paths : list (string * option PathItem)) : list (string * string) :=
  flat_map (fun entry =>
              match snd entry with
              | Some item => map (fun verb => (fst entry, JS.toUpperCase verb)) (verbsInFixedOrder item)
              | None => []
              end) paths.

Definition endpointKey (endpoint : SwaggerEndpoint) : string * string :=
  (path endpoint, method endpoint).

(** C4 as the specification words it, for the verbs of one path. *)
Definition verbs_in_declaration_order : Prop :=
  forall (path : string) (item : PathItem),
    map method (SwaggerSpecParser.parsePathItem path (Some item))
    = map JS.toUpperCase (declaredVerbs item).

(** A path item that declares [post] before [get]. *)
Definition postThenGet : PathItem := [("post", bareOperation); ("get", bareOperation)].

Definition petsApi : RawApi :=
  mkRawApi petInfo None
    (Some [("/pets/{petId}", Some [("delete", bareOperation); ("get", bareOperation)]);
           ("/pets", Some postThenGet)])
    None.

(** *** Storage groups and seed data *)

(** A string with an upper-case letter in it. *)
Fixpoint hasUpper (s : string) : bool :=
  match s with
  | EmptyString => false
  | String c s' => JS.isUpper c || hasUpper s'
  end.

(** Two characters that are equal, or the two cases of one letter. *)
Definition sameLetter (c d : ascii) : bool :=
  Ascii.eqb c d ||
  (JS.isUpper c && Ascii.eqb (JS.toLowerChar c) d) ||
  (JS.isUpper d && Ascii.eqb (JS.toLowerChar d) c).

(** Two strings that differ at most in the case of their letters. *)
Fixpoint sameUpToCase (a b : string) : bool :=
  match a, b with
  | EmptyString, EmptyString => true
  | String c a', String d b' => sameLetter c d && sameUpToCase a' b'
  | _, _ => false
  end.

(** The storage-group key of an endpoint. *)
Definition controllerKey (endpoint : SwaggerEndpoint) : string :=
  JS.toLowerCase (controllerOf endpoint).

Definition mixedCaseDocument : ParsedSwagger :=
  mkParsedSwagger petInfo []
    [simpleEndpoint "/users" "GET" "listUsers" [] (Some ["Users"]);
     simpleEndpoint "/pets" "GET" "listPets" [] (Some ["pets"]);
     simpleEndpoint "/users" "POST" "createUser" [] (Some ["USERS"; "admin"])]
    [].

(** Seed data with records for [pets] only. *)
Definition petsSeed : gmap string (list nat) := {[ "pets" := [1; 2]%list ]}.

(** What the inner loop of [parse] pushes for one verb of a path item. *)
Definition pushedFor (path : string) (item : PathItem) (method : string) : list SwaggerEndpoint :=
  match lookupKey method item with
  | Some operation => [SwaggerSpecParser.parseOperation path method operation]
  | None => []
  end.

(** One round of the loop of [groupEndpointsByController]. *)
Definition groupStep (groups : list (string * list SwaggerEndpoint)) (endpoint : SwaggerEndpoint)
  : list (string * list SwaggerEndpoint) :=
  pushToGroup (controllerKey endpoint) endpoint groups.

(** One round of the grouping loop, on the outcome of the rounds before. *)
Definition pushStep (groups : option (list (string * list SwaggerEndpoint)))
  (endpoint : SwaggerEndpoint) : option (list (string * list SwaggerEndpoint)) :=
  match groups with
  | Some own => pushEndpoint (controllerKey endpoint) endpoint own
  | None => None
  end.

(** Two operations tagged [Constructor] and [constructor]. *)
Definition constructorDocument : ParsedSwagger :=
  mkParsedSwagger petInfo []
    [simpleEndpoint "/builders" "GET" "listBuilders" [] (Some ["Constructor"]);
     simpleEndpoint "/builders" "POST" "createBuilder" [] (Some ["constructor"])]
    [].

(** Operations tagged [pets], [10] and [9], in this order. *)
Definition numberedDocument : ParsedSwagger :=
  mkParsedSwagger petInfo []
    [simpleEndpoint "/pets" "GET" "listPets" [] (Some ["pets"]);
     simpleEndpoint "/v10" "GET" "listTen" [] (Some ["10"]);
     simpleEndpoint "/v9" "GET" "listNine" [] (Some ["9"])]
    [].

(** [x] is a member of the group stored under [key]. *)
Definition inGroup (x : SwaggerEndpoint) (key : string)
  (groups : list (string * list SwaggerEndpoint)) : Prop :=
  exists members : list SwaggerEndpoint, lookupKey key groups = Some members /\ In x members.

(** *** Schemas that refer to each other *)

(** The nesting depth of a document schema. *)
Fixpoint rawDepth (schema : RawSchema) : nat :=
  S (Nat.max
       (match raw_properties schema with
        | Some props => list_max (map (fun entry => rawDepth (snd entry)) props)
        | None => 0
        end)
       (match raw_items schema with
        | Some it => rawDepth it
        | None => 0
        end)).

(** Object [a] holds object [b] as one of its properties or as its items. *)
Definition refersTo {Id : Type} (graph : SchemaGraph Id) (a b : Id) : Prop :=
  (exists (props : list (string * Id)) (key : string),
      node_properties (graph a) = Some props /\ In (key, b) props) \/
  node_items (graph a) = Some b.

(** Two schema objects, each holding the other as a property: schemas [A]
    and [B] that refer to each other, once the references have been
    replaced by the objects they name. *)
Inductive MutualObject : Type := ObjectA | ObjectB.

Definition mutualGraph : SchemaGraph MutualObject :=
  fun object =>
    match object with
    | ObjectA => mkRawNode (Some "object") None (Some [("b", ObjectB)]) None None None None None
    | ObjectB => mkRawNode (Some "object") None (Some [("a", ObjectA)]) None None None None None
    end.

(** The statement of the specification: every schema of a document is
    resolved, whatever refers to what. *)
Definition every_schema_resolves : Prop :=
  forall (Id : Type) (graph : SchemaGraph Id) (schema : Id),
  exists (stack : nat) (parsed : Schema),
    SwaggerSpecParser.parseSchemaGraph graph stack schema = Some parsed.

(** A reference, as it stands in the document. *)
Definition rawRef (target : string) : RawSchema :=
  mkRawSchema None None None None None None None (Some target).

Definition rawObject (props : list (string * RawSchema)) : RawSchema :=
  mkRawSchema (Some "object") None (Some props) None None None None None.

(** *** The normal form of parsed schemas *)

(** Induction on document schemas, through their properties and items. *)
Fixpoint RawSchema_nested_ind (P : RawSchema -> Prop)
  (step : forall ty fmt props its req en d r,
      match props with
      | Some entries => Forall (fun entry => P (snd entry)) entries
      | None => True
      end ->
      match its with Some it => P it | None => True end ->
      P (mkRawSchema ty fmt props its req en d r))
  (schema : RawSchema) : P schema :=
  match schema with
  | mkRawSchema ty fmt props its req en d r =>
      step ty fmt props its req en d r
        (match props with
         | Some entries =>
             (fix all (l : list (string * RawSchema)) : Forall (fun entry => P (snd entry)) l :=
                match l with
                | [] => @List.Forall_nil _ _
                | entry :: l' =>
                    @List.Forall_cons _ _ entry l'
                      (RawSchema_nested_ind P step (snd entry)) (all l')
                end) entries
         | None => I
         end)
        (match its with
         | Some it => RawSchema_nested_ind P step it
         | None => I
         end)
  end.

(** A parsed schema, read again as a schema of a document: the two have
    the same fields. *)
Fixpoint schemaAsDocument (schema : Schema) : RawSchema :=
  {| raw_type := Some (type schema);
     raw_format := format schema;
     raw_properties :=
       match properties schema with
       | Some props => Some (map (fun entry => (fst entry, schemaAsDocument (snd entry))) props)
       | None => None
       end;
     raw_items :=
       match items schema with
       | Some it => Some (schemaAsDocument it)
       | None => None
       end;
     raw_required := required schema;
     raw_enum := enum schema;
     raw_description := description schema;
     raw_ref := ref schema |}.

(** Every node of the schema carries a non-empty [type]. *)
Fixpoint everyNodeTyped (schema : Schema) : bool :=
  JS.truthy (type schema) &&
  match items schema with
  | Some it => everyNodeTyped it
  | None => true
  end &&
  match properties schema with
  | Some props => forallb (fun entry => everyNodeTyped (snd entry)) props
  | None => true
  end.

(** A string with a lower-case letter in it. *)
Fixpoint hasLower (s : string) : bool :=
  match s with
  | EmptyString => false
  | String c s' => JS.isLower c || hasLower s'
  end.

(** The database operation the parser's seven verbs lead to. *)
Definition operationOfVerb (verb path : string) : string :=
  if String.eqb verb "get" then (if JS.includes "{" path then "findById" else "findAll")
  else if String.eqb verb "post" then "create"
  else if String.eqb verb "put" then "update"
  else if String.eqb verb "patch" then "update"
  else if String.eqb verb "delete" then "delete"
  else "query".

(** A document with two paths, one of which also carries a key that is no
    verb. *)
Definition storeApi : RawApi :=
  mkRawApi petInfo None
    (Some [("/pets", Some [("post", bareOperation); ("trace", bareOperation); ("get", bareOperation)]);
           ("/pets/{petId}", Some [("head", bareOperation)])])
    None.

(** *** Status codes of errors, and the arguments of emitted functions *)

(** [r] is the first response of the list whose status code begins with
    [4]. *)
Definition firstClientErrorResponse (listed : list Response) (r : Response) : Prop :=
  exists before after : list Response,
    listed = (before ++ r :: after)%list /\
    Forall (fun x => JS.startsWith "4" (statusCode x) = false) before /\
    JS.startsWith "4" (statusCode r) = true.

Definition noClientErrorResponse (listed : list Response) : Prop :=
  Forall (fun x => JS.startsWith "4" (statusCode x) = false) listed.

(** The parameters that the emitted function declares: each name with the
    text that follows it in the signature. *)
Definition pathArgument (param : EndpointParameter) : string * string :=
  (param_name param, ": " ++ ApiGenerator.mapSchemaToTypeScript (param_schema param)).

Definition queryField (param : EndpointParameter) : string :=
  param_name param ++ (if param_required param then "" else "?") ++ ": " ++
  ApiGenerator.mapSchemaToTypeScript (param_schema param) ++ "; ".

Definition queryArgument (queryParams : list EndpointParameter) : string * string :=
  ("params", "?: { " ++ String.concat "" (map queryField queryParams) ++ " }").

Definition bodyArgument : string * string := ("body", ": any").

Definition typedArguments (endpoint : SwaggerEndpoint) : list (string * string) :=
  let pathParams := List.filter ApiGenerator.isPathParam (parameters endpoint) in
  let queryParams := List.filter ApiGenerator.isQueryParam (parameters endpoint) in
  (map pathArgument pathParams ++
   (if negb (Nat.eqb (length queryParams) 0) then [queryArgument queryParams] else []) ++
   (if ApiGenerator.hasRequestBody endpoint then [bodyArgument] else []))%list.

Definition updatePetEndpoint : SwaggerEndpoint :=
  mkEndpoint "/pets/{petId}" "PUT" "updatePet" None None
    [mkParameter "petId" InPath true (plainSchema "string") None;
     mkParameter "dryRun" InQuery false (plainSchema "boolean") None]
    (Some (mkRequestBody true []))
    [mkResponse "4XX" "Client error" None; mkResponse "202" "Accepted" None]
    (Some ["pets"]).

(** *** Names, and types that are not objects *)

(** The names of the types that TypeScript provides. *)
Definition primitiveTypeNames : list string := ["any"; "string"; "number"; "boolean"; "void"].

(** An array of references, and an enumeration without values. *)
Definition petListSchema : Schema :=
  mkSchema "array" None None (Some (refSchema "#/components/schemas/Pet")) None None None None.

Definition emptyEnumSchema : Schema :=
  mkSchema "string" None None None None (Some []) None None.

(** *** Groups as a partition of the endpoints *)

(** The endpoints whose storage-group key is [key], in document order. *)
Definition membersOf (key : string) (endpoints : list SwaggerEndpoint) : list SwaggerEndpoint :=
  List.filter (fun endpoint => String.eqb (controllerKey endpoint) key) endpoints.

(** What [groups[key]] holds once [members] more endpoints were pushed. *)
Definition extendGroup (group : option (list SwaggerEndpoint)) (members : list SwaggerEndpoint)
  : option (list SwaggerEndpoint) :=
  match group, members with
  | None, [] => None
  | _, _ => Some (default [] group ++ members)%list
  end.

(** Seed data with an entry under a key that is not in lower case. *)
Definition capitalSeed : gmap string (list nat) :=
  {[ "Users" := [7; 8]%list; "pets" := [1; 2]%list ]}.

(** *** Seed files and response types *)

(** The keys of the entries of a seed object that are not arrays. *)
Definition rejectedKeys {SeedRecord : Type}
  (entries : list (string * Commands.SeedValue SeedRecord)) : list string :=
  map fst
    (List.filter (fun entry =>
                    match snd entry with
                    | Commands.SeedOther _ => true
                    | Commands.SeedArray _ _ => false
                    end) entries).

(** A seed object, as its file declares it: three entries that are not
    arrays, two of them under integer keys. *)
Definition mixedSeedEntries : list (string * Commands.SeedValue nat) :=
  [("pets", Commands.SeedArray nat [1; 2]); ("version", Commands.SeedOther nat);
   ("10", Commands.SeedOther nat); ("users", Commands.SeedArray nat []);
   ("9", Commands.SeedOther nat)].

(** A seed file that holds an array. *)
Definition seedFileArray : Commands.SeedContent nat :=
  Commands.SeedTopArray nat [Commands.SeedArray nat [1; 2]; Commands.SeedOther nat].

(** The line that declares the response type of an endpoint. *)
Definition responseAlias (endpoint : SwaggerEndpoint) (payload : string) : string :=
  "export type " ++ TypeGenerator.toPascalCase (operationId endpoint) ++
  "Response = ApiResponse<" ++ payload ++ ">;" ++ nl.

(** An endpoint whose success response only has an XML body. *)
Definition xmlEndpoint : SwaggerEndpoint :=
  simpleEndpoint "/report" "GET" "getReport"
    [mkResponse "200" "Report"
       (Some [("application/xml", mkMediaType (plainSchema "string"))])]
    (Some ["reports"]).

(** * Properties *)

(** ** The string primitives on examples *)

Example toLowerCase_ex : JS.toLowerCase "GeT-Pets_9" = "get-pets_9".
Proof. reflexivity. Qed.

Example split_ex : JS.split "/" "/users/{id}/" = [""; "users"; "{id}"; ""].
Proof. reflexivity. Qed.

Example capitalizeWords_ex1 : JS.capitalizeWords "user-profile" = "UserProfile".
Proof. reflexivity. Qed.

Example capitalizeWords_ex2 : JS.capitalizeWords "a__b" = "A_b".
Proof. reflexivity. Qed.

Example capitalizeWords_ex3 : JS.capitalizeWords "_foo-bar" = "_fooBar".
Proof. reflexivity. Qed.

Example parseInt10_ex : JS.parseInt10 "2XX" = Some 2%Z /\ JS.parseInt10 "204" = Some 204%Z.
Proof. split; reflexivity. Qed.

(** ** Characters and strings *)

Ltac ascii_cases c :=
  let b0 := fresh "b" in let b1 := fresh "b" in let b2 := fresh "b" in
  let b3 := fresh "b" in let b4 := fresh "b" in let b5 := fresh "b" in
  let b6 := fresh "b" in let b7 := fresh "b" in
  destruct c as [b0 b1 b2 b3 b4 b5 b6 b7];
  destruct b0, b1, b2, b3, b4, b5, b6, b7.

Lemma toLowerChar_not_upper (c : ascii) : JS.isUpper (JS.toLowerChar c) = false.
Proof. ascii_cases c; reflexivity. Qed.

Lemma toLowerChar_idem (c : ascii) : JS.toLowerChar (JS.toLowerChar c) = JS.toLowerChar c.
Proof.
  unfold JS.toLowerChar at 1. now rewrite toLowerChar_not_upper.
Qed.

Lemma toUpperChar_not_a (c : ascii) : JS.toUpperChar c <> "a"%char.
Proof. ascii_cases c; discriminate. Qed.

Lemma isWord_a : JS.isWord "a" = true.
Proof. reflexivity. Qed.

Lemma ascii_eqb_true (c d : ascii) : Ascii.eqb c d = true -> c = d.
Proof. apply Ascii.eqb_eq. Qed.

Lemma string_prefix_brace (c : ascii) (s : string) :
  String.prefix "{" (String c s) = Ascii.eqb c "{".
Proof.
  cbn [String.prefix]. destruct (Ascii.ascii_dec "{" c) as [<- | Hne].
  - rewrite Ascii.eqb_refl. now destruct s.
  - symmetry. apply Ascii.eqb_neq. congruence.
Qed.

(** [includes "{"] holds exactly of the strings with a [{] somewhere. *)
Lemma includes_brace_iff (s : string) :
  JS.includes "{" s = true <-> exists a b : string, s = a ++ String "{" b.
Proof.
  induction s as [| c s IH].
  - split; [discriminate |].
    intros [[| ? ?] [b Hb]]; discriminate.
  - cbn [JS.includes]. rewrite string_prefix_brace, orb_true_iff, IH.
    split.
    + intros [Hc | (a & b & ->)].
      * apply ascii_eqb_true in Hc as ->. now exists "", s.
      * now exists (String c a), b.
    + intros [[| c' a] [b Hb]]; simpl in Hb; inversion Hb; subst.
      * now left.
      * right. now exists a, b.
Qed.

Lemma split_nonempty (sep : ascii) (s : string) : JS.split sep s <> [].
Proof.
  destruct s as [| c s]; simpl; [discriminate |].
  destruct (Ascii.eqb c sep); [discriminate |].
  destruct (JS.split sep s); discriminate.
Qed.

(** A segment opening with [{] puts a [{] in the whole string. *)
Lemma segment_brace_includes (s seg : string) :
  In seg (JS.split "/" s) -> JS.startsWith "{" seg = true -> JS.includes "{" s = true.
Proof.
  revert seg. induction s as [| c s IH]; intros seg Hin Hpre.
  - destruct Hin as [<- | []]. discriminate.
  - cbn [JS.includes]. rewrite string_prefix_brace. apply orb_true_iff.
    simpl in Hin. destruct (Ascii.eqb c "/") eqn:Hsep.
    + destruct Hin as [<- | Hin]; [discriminate |]. right. eauto.
    + destruct (JS.split "/" s) as [| seg0 segs] eqn:Hsplit.
      * now destruct (split_nonempty "/" s).
      * destruct Hin as [<- | Hin].
        -- left. unfold JS.startsWith in Hpre. now rewrite string_prefix_brace in Hpre.
        -- right. apply (IH seg); [now right | assumption].
Qed.

Lemma lastElem_In (parts : list string) (seg : string) :
  JS.lastElem parts = Some seg -> In seg parts.
Proof.
  unfold JS.lastElem. induction parts as [| p [| q parts] IH]; simpl.
  - discriminate.
  - intros [= ->]. now left.
  - intros H. right. now apply IH.
Qed.

Lemma append_assoc (a b c : string) : (a ++ b) ++ c = a ++ b ++ c.
Proof.
  induction a as [| x a IH]; [reflexivity |].
  change (String x ((a ++ b) ++ c) = String x (a ++ b ++ c)). now rewrite IH.
Qed.

Lemma append_nil_r (a : string) : a ++ "" = a.
Proof.
  induction a as [| x a IH]; [reflexivity |].
  change (String x (a ++ "") = String x a). now rewrite IH.
Qed.

Lemma length_append (a b : string) :
  String.length (a ++ b) = String.length a + String.length b.
Proof.
  induction a as [| x a IH]; [reflexivity |].
  change (S (String.length (a ++ b)) = S (String.length a + String.length b)). now rewrite IH.
Qed.

(** ** C1: GET is classified by the presence of a brace in the path *)

(** C1, as stated, fails: [GET /users/{userId}/posts] ends in the plain
    segment [posts], yet it is classified [findById]. *)
Lemma get_nested_collection_is_findById :
  isGet nestedListEndpoint /\
  trailingPlaceholder (path nestedListEndpoint) = false /\
  ApiGenerator.generateDbFunctionName nestedListEndpoint = "findById" /\
  ~ get_by_id_iff_trailing_placeholder.
Proof.
  repeat split.
  intros Hclaim.
  destruct (Hclaim nestedListEndpoint eq_refl) as [Hto _].
  specialize (Hto eq_refl). discriminate.
Qed.

(** C1 (amended): for a GET operation the database function is [findById]
    exactly when the path contains a [{] anywhere, and [findAll] exactly
    when it contains none; in particular a trailing [{param}] segment gives
    [findById], and so does a placeholder in any other position. *)
Theorem get_classified_by_brace_in_path (endpoint : SwaggerEndpoint) :
  isGet endpoint ->
  (ApiGenerator.generateDbFunctionName endpoint = "findById" <->
   exists a b : string, path endpoint = a ++ String "{" b) /\
  (ApiGenerator.generateDbFunctionName endpoint = "findAll" <->
   ~ exists a b : string, path endpoint = a ++ String "{" b) /\
  (trailingPlaceholder (path endpoint) = true ->
   ApiGenerator.generateDbFunctionName endpoint = "findById") /\
  (forall seg : string,
      In seg (JS.split "/" (path endpoint)) -> isPlaceholder seg = true ->
      ApiGenerator.generateDbFunctionName endpoint = "findById").
Proof.
  intros Hget. unfold isGet in Hget.
  unfold ApiGenerator.generateDbFunctionName. rewrite Hget. cbn [String.eqb Ascii.eqb Bool.eqb].
  rewrite <- includes_brace_iff.
  assert (Hseg : forall seg, In seg (JS.split "/" (path endpoint)) ->
                             isPlaceholder seg = true ->
                             JS.includes "{" (path endpoint) = true).
  { intros seg Hin Hph. apply andb_true_iff in Hph as [Hpre _].
    eauto using segment_brace_includes. }
  destruct (JS.includes "{" (path endpoint)) eqn:Hinc.
  - repeat split; try easy.
  - repeat split; try easy.
    + unfold trailingPlaceholder.
      destruct (JS.lastElem (JS.split "/" (path endpoint))) as [seg |] eqn:Hlast; [| discriminate].
      intros Hph. apply lastElem_In in Hlast. specialize (Hseg seg Hlast Hph). discriminate.
    + intros seg Hin Hph. specialize (Hseg seg Hin Hph). discriminate.
Qed.

Lemma get_classified_by_brace_in_path_witness :
  isGet nestedListEndpoint /\
  (ApiGenerator.generateDbFunctionName nestedListEndpoint = "findById" <->
   exists a b : string, path nestedListEndpoint = a ++ String "{" b).
Proof.
  split; [reflexivity |].
  apply (get_classified_by_brace_in_path nestedListEndpoint). reflexivity.
Defined.

(** ** C5: the success status code *)

Lemma find_first (A : Type) (f : A -> bool) (before after : list A) (x : A) :
  Forall (fun y => f y = false) before -> f x = true ->
  List.find f (before ++ x :: after) = Some x.
Proof.
  induction 1 as [| y before Hy _ IH]; intros Hx; simpl.
  - now rewrite Hx.
  - rewrite Hy. auto.
Qed.

Lemma find_none (A : Type) (f : A -> bool) (l : list A) :
  Forall (fun y => f y = false) l -> List.find f l = None.
Proof.
  induction 1 as [| y l Hy _ IH]; simpl; [reflexivity |]. now rewrite Hy.
Qed.

(** The accumulating loop of [parseInt] computes the positional value of
    the digits it consumes. *)
Lemma parseDigits_value (s : string) (acc : Z) :
  JS.parseDigits acc s =
  (acc * 10 ^ Z.of_nat (String.length (leadingDigits s)) + decimalValue (leadingDigits s))%Z.
Proof.
  revert acc. induction s as [| c s IH]; intros acc;
    cbn [JS.parseDigits leadingDigits].
  - cbn. lia.
  - destruct (JS.isDigit c); cbn [decimalValue String.length].
    + rewrite IH, Nat2Z.inj_succ, Z.pow_succ_r by lia. ring.
    + cbn. lia.
Qed.

Lemma parseInt10_success_code (s : string) :
  JS.startsWith "2" s = true -> JS.parseInt10 s = Some (decimalValue (leadingDigits s)).
Proof.
  destruct s as [| c s]; [discriminate |].
  unfold JS.startsWith. cbn [String.prefix].
  destruct (Ascii.ascii_dec "2" c) as [<- | ?]; [intros _ | discriminate].
  unfold JS.parseInt10. cbn [JS.skipSpaces].
  change (JS.isSpace "2") with false. cbv iota.
  change (Ascii.eqb "2" "-") with false. change (Ascii.eqb "2" "+") with false. cbv iota.
  unfold JS.parseUnsigned. change (JS.isDigit "2") with true. cbv iota.
  rewrite parseDigits_value. f_equal; lia.
Qed.

Lemma leadingDigits_allDigits (s : string) : allDigits s = true -> leadingDigits s = s.
Proof.
  induction s as [| c s IH]; simpl; [reflexivity |].
  intros H. apply andb_true_iff in H as [-> Hs]. now rewrite IH.
Qed.

(** *** The order of [Object.entries] *)

Lemma insertEntry_perm (A : Type) (entry : string * A) (sorted : list (string * A)) :
  Permutation (JS.insertEntry entry sorted) (entry :: sorted).
Proof.
  induction sorted as [| e rest IH]; cbn [JS.insertEntry]; [apply Permutation_refl |].
  destruct (JS.indexValue (fst entry) <=? JS.indexValue (fst e))%Z; [apply Permutation_refl |].
  apply perm_trans with (e :: entry :: rest); [apply perm_skip, IH | apply perm_swap].
Qed.

Lemma ascending_perm (A : Type) (indexed : list (string * A)) :
  Permutation (JS.ascending indexed) indexed.
Proof.
  induction indexed as [| e rest IH]; [apply Permutation_refl |].
  change (JS.ascending (e :: rest)) with (JS.insertEntry e (JS.ascending rest)).
  eapply perm_trans; [apply insertEntry_perm | apply perm_skip, IH].
Qed.

Lemma filter_both_perm (A : Type) (f : A -> bool) (l : list A) :
  Permutation (List.filter f l ++ List.filter (fun x => negb (f x)) l) l.
Proof.
  induction l as [| x l IH]; [apply Permutation_refl |].
  cbn [List.filter]. destruct (f x); cbn [negb].
  - apply (perm_skip x IH).
  - eapply perm_trans; [apply Permutation_sym, Permutation_middle | apply perm_skip, IH].
Qed.

Lemma entries_perm (A : Type) (own : list (string * A)) :
  Permutation (JS.entries own) own.
Proof.
  unfold JS.entries.
  eapply perm_trans; [apply Permutation_app_tail, ascending_perm |].
  apply (filter_both_perm _ (fun entry => JS.isArrayIndex (fst entry))).
Qed.

Lemma in_entries (A : Type) (own : list (string * A)) (entry : string * A) :
  In entry (JS.entries own) <-> In entry own.
Proof.
  split; apply Permutation_in; [| apply Permutation_sym]; apply entries_perm.
Qed.

Lemma insertEntry_sorted (A : Type) (entry : string * A) (sorted : list (string * A)) :
  StronglySorted indexLe sorted -> StronglySorted indexLe (JS.insertEntry entry sorted).
Proof.
  induction 1 as [| e rest Hrest IH Hall]; cbn [JS.insertEntry].
  - repeat constructor.
  - destruct (Z.leb_spec (JS.indexValue (fst entry)) (JS.indexValue (fst e))) as [Hle | Hgt].
    + constructor; [now constructor |].
      constructor; [exact Hle |].
      eapply List.Forall_impl; [| exact Hall].
      intros x Hx. unfold indexLe in *. lia.
    + constructor; [exact IH |].
      apply List.Forall_forall. intros x Hx.
      apply (Permutation_in _ (insertEntry_perm _ entry rest)) in Hx.
      destruct Hx as [<- | Hx].
      * unfold indexLe. lia.
      * exact (proj1 (List.Forall_forall _ _) Hall x Hx).
Qed.

Lemma ascending_sorted (A : Type) (indexed : list (string * A)) :
  StronglySorted indexLe (JS.ascending indexed).
Proof.
  induction indexed as [| e rest IH]; [constructor |].
  change (JS.ascending (e :: rest)) with (JS.insertEntry e (JS.ascending rest)).
  now apply insertEntry_sorted.
Qed.

Lemma filter_nothing (A : Type) (f : A -> bool) (l : list A) :
  Forall (fun x => f x = false) l -> List.filter f l = [].
Proof.
  induction 1 as [| x l Hx _ IH]; [reflexivity |]. cbn [List.filter]. now rewrite Hx.
Qed.

Lemma filter_everything (A : Type) (f : A -> bool) (l : list A) :
  Forall (fun x => f x = true) l -> List.filter f l = l.
Proof.
  induction 1 as [| x l Hx _ IH]; [reflexivity |]. cbn [List.filter]. now rewrite Hx, IH.
Qed.

(** Without array indices among the keys, the order is creation order. *)
Lemma entries_without_indices (A : Type) (own : list (string * A)) :
  Forall (fun entry => JS.isArrayIndex (fst entry) = false) own -> JS.entries own = own.
Proof.
  intros Hnone. unfold JS.entries.
  rewrite (filter_nothing _ _ _ Hnone), filter_everything; [reflexivity |].
  eapply List.Forall_impl; [| exact Hnone]. intros e He. cbn beta. now rewrite He.
Qed.

(** *** [find] *)

Lemma find_app (A : Type) (f : A -> bool) (l1 l2 : list A) :
  List.find f (l1 ++ l2)
  = match List.find f l1 with Some x => Some x | None => List.find f l2 end.
Proof.
  induction l1 as [| x l1 IH]; [reflexivity |].
  cbn [app List.find]. now destruct (f x).
Qed.

Lemma find_filter (A : Type) (f keep : A -> bool) (l : list A) :
  List.find f (List.filter keep l) = List.find (fun x => keep x && f x) l.
Proof.
  induction l as [| x l IH]; [reflexivity |].
  cbn [List.filter List.find]. destruct (keep x); cbn [andb List.find]; [| exact IH].
  now destruct (f x).
Qed.

Lemma find_map (A B : Type) (f : B -> bool) (g : A -> B) (l : list A) :
  List.find f (map g l) = option_map g (List.find (fun x => f (g x)) l).
Proof.
  induction l as [| x l IH]; [reflexivity |].
  cbn [map List.find]. now destruct (f (g x)).
Qed.

Lemma find_exists (A : Type) (f : A -> bool) (l : list A) (x : A) :
  In x l -> f x = true -> exists y, List.find f l = Some y.
Proof.
  induction l as [| z l IH]; [contradiction |].
  intros [-> | Hin] Hx; cbn [List.find].
  - rewrite Hx. now exists x.
  - destruct (f z); [now exists z | now apply IH].
Qed.

(** In an ascending list, the first entry that passes a test is a least
    one among those that pass. *)
Lemma find_sorted_least (A : Type) (f : string * A -> bool) (l : list (string * A))
  (x y : string * A) :
  StronglySorted indexLe l -> List.find f l = Some x -> In y l -> f y = true -> indexLe x y.
Proof.
  induction 1 as [| e rest Hrest IH Hall]; [discriminate |].
  cbn [List.find]. destruct (f e) eqn:He.
  - intros [= <-] [<- | Hin] _.
    + unfold indexLe. lia.
    + exact (proj1 (List.Forall_forall _ _) Hall y Hin).
  - intros Hfind [<- | Hin] Hy; [congruence |]. now apply IH.
Qed.

Lemma parseInt10_indexValue (s : string) :
  JS.startsWith "2" s = true -> JS.parseInt10 s = Some (JS.indexValue s).
Proof.
  intros Hs. rewrite (parseInt10_success_code _ Hs). unfold JS.indexValue.
  rewrite parseDigits_value. f_equal; lia.
Qed.

(** The success code of a parsed operation, by the two parts of
    [Object.entries(operation.responses)]. *)
Lemma parsed_success_code (path verb : string) (operation : RawOperation)
  (declared : list (string * RawResponse)) :
  raw_responses operation = Some declared ->
  ApiGenerator.getSuccessStatusCode (SwaggerSpecParser.parseOperation path verb operation)
  = match List.find (fun entry => JS.startsWith "2" (fst entry))
            (JS.ascending (List.filter (fun entry => JS.isArrayIndex (fst entry)) declared)) with
    | Some entry => JS.parseInt10 (fst entry)
    | None =>
        match List.find (fun entry => negb (JS.isArrayIndex (fst entry))
                                      && JS.startsWith "2" (fst entry)) declared with
        | Some entry => JS.parseInt10 (fst entry)
        | None =>
            if String.eqb (JS.toLowerCase (JS.toUpperCase verb)) "post" then Some 201%Z
            else if String.eqb (JS.toLowerCase (JS.toUpperCase verb)) "delete" then Some 204%Z
            else Some 200%Z
        end
    end.
Proof.
  intros Hdeclared.
  unfold ApiGenerator.getSuccessStatusCode, SwaggerSpecParser.parseOperation.
  cbn [responses method]. rewrite Hdeclared.
  rewrite (find_map _ _ (fun r => JS.startsWith "2" (statusCode r))
             (fun entry => SwaggerSpecParser.parseResponse (fst entry) (snd entry))).
  cbn [SwaggerSpecParser.parseResponse statusCode].
  unfold JS.entries. rewrite find_app, find_filter.
  destruct (List.find _ (JS.ascending _)) as [entry |]; [reflexivity |].
  now destruct (List.find _ declared) as [entry |].
Qed.

(** C5 as worded fails for the operations of a document: declared in the
    order 201, 200, the responses of an operation are listed by
    [Object.entries] in the order 200, 201, and 200 is emitted. *)
Lemma created_before_ok_emits_200 :
  firstDeclaredSuccess
    [("201", mkRawResponse (Some "Created") None); ("200", mkRawResponse (Some "OK") None)]
    "201" /\
  ApiGenerator.getSuccessStatusCode
    (SwaggerSpecParser.parseOperation "/pets" "post" createdBeforeOk) = Some 200%Z /\
  JS.parseInt10 "201" = Some 201%Z /\
  ~ success_code_is_first_declared.
Proof.
  assert (Hfirst : firstDeclaredSuccess
            [("201", mkRawResponse (Some "Created") None);
             ("200", mkRawResponse (Some "OK") None)] "201").
  { exists [], (mkRawResponse (Some "Created") None), [("200", mkRawResponse (Some "OK") None)].
    repeat split. constructor. }
  split; [exact Hfirst |]. split; [reflexivity |]. split; [reflexivity |].
  intros Hclaim.
  specialize (Hclaim "/pets" "post" createdBeforeOk _ "201" eq_refl Hfirst).
  vm_compute in Hclaim. discriminate.
Qed.

(** C5 (amended): the success status code is the number [parseInt] reads
    from the first response, in the order of the endpoint's list of
    responses, whose status code begins with [2] (its decimal value when
    the code is all digits); with no such response it is 201 for POST, 204
    for DELETE and 200 for any other verb.  The parser fills that list in
    the order of [Object.entries]: for an operation of a document, the
    number emitted is the least integer status code beginning with [2]
    when there is one, whatever the order of declaration, and otherwise it
    is read from the first declared code beginning with [2]. *)
Theorem success_status_code :
  (forall endpoint : SwaggerEndpoint,
      (forall r : Response,
          firstSuccessResponse (responses endpoint) r ->
          ApiGenerator.getSuccessStatusCode endpoint
          = Some (decimalValue (leadingDigits (statusCode r))) /\
          (allDigits (statusCode r) = true ->
           ApiGenerator.getSuccessStatusCode endpoint = Some (decimalValue (statusCode r)))) /\
      (noSuccessResponse (responses endpoint) ->
       (JS.toLowerCase (method endpoint) = "post" ->
        ApiGenerator.getSuccessStatusCode endpoint = Some 201%Z) /\
       (JS.toLowerCase (method endpoint) = "delete" ->
        ApiGenerator.getSuccessStatusCode endpoint = Some 204%Z) /\
       (JS.toLowerCase (method endpoint) <> "post" ->
        JS.toLowerCase (method endpoint) <> "delete" ->
        ApiGenerator.getSuccessStatusCode endpoint = Some 200%Z))) /\
  (forall (path verb : string) (operation : RawOperation)
          (declared : list (string * RawResponse)),
      raw_responses operation = Some declared ->
      let endpoint := SwaggerSpecParser.parseOperation path verb operation in
      map statusCode (responses endpoint) = map fst (JS.entries declared) /\
      (forall code : string,
          In code (map fst declared) -> isIndexedSuccess code = true ->
          exists least : string,
            In least (map fst declared) /\ isIndexedSuccess least = true /\
            (forall other : string,
                In other (map fst declared) -> isIndexedSuccess other = true ->
                (JS.indexValue least <= JS.indexValue other)%Z) /\
            ApiGenerator.getSuccessStatusCode endpoint = Some (JS.indexValue least)) /\
      ((forall code : string, In code (map fst declared) -> isIndexedSuccess code = false) ->
       forall code : string,
         firstDeclaredSuccess declared code ->
         ApiGenerator.getSuccessStatusCode endpoint
         = Some (decimalValue (leadingDigits code)))).
Proof.
  split.
  - intros endpoint. unfold ApiGenerator.getSuccessStatusCode. split.
    + intros r (before & after & Hdecl & Hbefore & Hr).
      rewrite Hdecl.
      rewrite (find_first _ (fun x => JS.startsWith "2" (statusCode x)) before after r Hbefore Hr).
      rewrite (parseInt10_success_code _ Hr). split; [reflexivity |].
      intros Hdigits. now rewrite (leadingDigits_allDigits _ Hdigits).
    + intros Hnone.
      rewrite (find_none _ (fun x => JS.startsWith "2" (statusCode x)) _ Hnone).
      repeat split.
      * now intros ->.
      * now intros ->.
      * intros Hpost Hdelete.
        destruct (String.eqb_spec (JS.toLowerCase (method endpoint)) "post"); [contradiction |].
        destruct (String.eqb_spec (JS.toLowerCase (method endpoint)) "delete"); [contradiction |].
        reflexivity.
  - intros path verb operation declared Hdeclared endpoint. subst endpoint.
    split; [| split].
    + unfold SwaggerSpecParser.parseOperation. cbn [responses]. rewrite Hdeclared.
      rewrite map_map. reflexivity.
    + intros code Hcode Hindexed.
      rewrite (parsed_success_code path verb operation declared Hdeclared).
      set (indexed := List.filter (fun entry : string * RawResponse =>
                                     JS.isArrayIndex (fst entry)) declared).
      apply andb_true_iff in Hindexed as [Hindex Hstarts].
      apply in_map_iff in Hcode as (entry & <- & Hentry).
      assert (Hin : In entry (JS.ascending indexed)).
      { apply (Permutation_in _ (Permutation_sym (ascending_perm _ indexed))).
        apply filter_In. now split. }
      destruct (find_exists _ (fun e : string * RawResponse => JS.startsWith "2" (fst e))
                  _ entry Hin Hstarts) as (first & Hfind).
      rewrite Hfind.
      destruct (find_some _ _ Hfind) as [Hfirst_in Hfirst_starts].
      apply (Permutation_in _ (ascending_perm _ indexed)) in Hfirst_in.
      apply filter_In in Hfirst_in as [Hfirst_declared Hfirst_index].
      exists (fst first). repeat split.
      * now apply in_map.
      * unfold isIndexedSuccess. now rewrite Hfirst_index, Hfirst_starts.
      * intros other Hother Hother_indexed.
        apply andb_true_iff in Hother_indexed as [Hother_index Hother_starts].
        apply in_map_iff in Hother as (e & <- & He).
        apply (find_sorted_least _ (fun e : string * RawResponse => JS.startsWith "2" (fst e))
                 (JS.ascending indexed) first e (ascending_sorted _ indexed) Hfind);
          [| exact Hother_starts].
        apply (Permutation_in _ (Permutation_sym (ascending_perm _ indexed))).
        apply filter_In. now split.
      * now apply parseInt10_indexValue.
    + intros Hnone code (before & response & after & Hdecl & Hbefore & Hstarts).
      rewrite (parsed_success_code path verb operation declared Hdeclared).
      assert (Hcode : JS.isArrayIndex code = false).
      { specialize (Hnone code). unfold isIndexedSuccess in Hnone. rewrite Hstarts in Hnone.
        rewrite andb_true_r in Hnone. apply Hnone. rewrite Hdecl, map_app.
        apply in_or_app. right. now left. }
      rewrite (find_none _ (fun entry : string * RawResponse => JS.startsWith "2" (fst entry))).
      * rewrite Hdecl.
        rewrite (find_first _ (fun entry : string * RawResponse =>
                                 negb (JS.isArrayIndex (fst entry))
                                 && JS.startsWith "2" (fst entry))
                   before after (code, response)).
        -- now apply parseInt10_success_code.
        -- eapply List.Forall_impl; [| exact Hbefore].
           intros e He. cbn beta. rewrite He. apply andb_false_r.
        -- cbn [fst]. now rewrite Hcode, Hstarts.
      * apply List.Forall_forall. intros e He.
        apply (Permutation_in _ (ascending_perm _ _)) in He.
        apply filter_In in He as [He Hindex].
        specialize (Hnone (fst e) (in_map fst _ _ He)).
        unfold isIndexedSuccess in Hnone. now rewrite Hindex in Hnone.
Qed.

Lemma success_status_code_witness :
  (exists least : string,
      In least ["default"; "404"; "201"] /\ isIndexedSuccess least = true /\
      (forall other : string,
          In other ["default"; "404"; "201"] -> isIndexedSuccess other = true ->
          (JS.indexValue least <= JS.indexValue other)%Z) /\
      ApiGenerator.getSuccessStatusCode
        (SwaggerSpecParser.parseOperation "/pets" "post" createPetOperation)
      = Some (JS.indexValue least)) /\
  ApiGenerator.getSuccessStatusCode deleteEndpoint = Some 204%Z.
Proof.
  split.
  - apply (proj1 (proj2 (proj2 success_status_code "/pets" "post" createPetOperation _ eq_refl))
             "201").
    + simpl. auto.
    + reflexivity.
  - apply (proj2 (proj1 success_status_code deleteEndpoint)).
    + constructor.
    + reflexivity.
Defined.

(** ** C2: the function name of an operation without identifier *)

Lemma lastElem_snoc (parts : list string) (seg : string) :
  JS.lastElem (parts ++ [seg]) = Some seg.
Proof.
  unfold JS.lastElem. rewrite map_app. simpl. apply last_last.
Qed.

Lemma filter_none (A : Type) (f : A -> bool) (l : list A) :
  Forall (fun x => f x = false) l -> List.filter f l = [].
Proof.
  induction 1 as [| x l Hx _ IH]; simpl; [reflexivity |]. now rewrite Hx.
Qed.

(** The source's filter-then-last finds the last resource segment. *)
Lemma pathParts_last (path seg : string) :
  lastResourceSegment path seg ->
  JS.lastElem (ApiGenerator.pathParts path) = Some seg.
Proof.
  intros (before & after & Hsplit & Hseg & Hafter).
  unfold ApiGenerator.pathParts. rewrite Hsplit.
  change (fun part => JS.truthy part && negb (JS.startsWith "{" part)) with isResourceSegment.
  rewrite List.filter_app. cbn [List.filter]. rewrite Hseg, (filter_none _ _ _ Hafter).
  apply lastElem_snoc.
Qed.

Lemma alnum_not_separator (c : ascii) :
  JS.isAlnum c = true -> Ascii.eqb c "-" || Ascii.eqb c "_" = false.
Proof. ascii_cases c; (reflexivity || discriminate). Qed.

Lemma capitalizeAfterSep_alnum (s : string) :
  onlyAlnum s = true -> JS.capitalizeAfterSep s = s.
Proof.
  induction s as [| d rest IH]; [reflexivity |].
  cbn [onlyAlnum]. intros H. apply andb_true_iff in H as [Hd Hrest].
  specialize (IH Hrest). cbn [JS.capitalizeAfterSep].
  destruct rest as [| c rest']; [reflexivity |].
  rewrite (alnum_not_separator d Hd). cbn [andb]. now rewrite IH.
Qed.

Lemma onlyAlnum_app (a b : string) :
  onlyAlnum (a ++ b) = onlyAlnum a && onlyAlnum b.
Proof.
  induction a as [| c a IH]; simpl; [reflexivity |]. now rewrite IH, andb_assoc.
Qed.

Lemma onlyAlnum_strip (s : string) : onlyAlnum (JS.stripNonAlnum s) = true.
Proof.
  induction s as [| c s IH]; simpl; [reflexivity |].
  destruct (JS.isAlnum c) eqn:Hc; simpl; [now rewrite Hc |]; assumption.
Qed.

Lemma lower_upper_lower (c : ascii) :
  JS.isLower c = true -> JS.isWord c = true /\ JS.toLowerChar (JS.toUpperChar c) = c.
Proof. ascii_cases c; (discriminate || (split; reflexivity)). Qed.

(** An identifier of letters and digits that begins with a lower-case
    letter is already in camel form. *)
Lemma toCamelCase_alnum (c : ascii) (s : string) :
  JS.isLower c = true -> onlyAlnum s = true ->
  ApiGenerator.toCamelCase (String c s) = String c s.
Proof.
  intros Hc Hs. destruct (lower_upper_lower c Hc) as [Hword Hround].
  unfold ApiGenerator.toCamelCase, ApiGenerator.toPascalCase, JS.capitalizeWords.
  rewrite Hword, (capitalizeAfterSep_alnum s Hs). cbn. now rewrite Hround.
Qed.

Lemma methods_shape (method : string) :
  In method SwaggerSpecParser.methods ->
  exists (c : ascii) (rest : string),
    method = String c rest /\ JS.isLower c = true /\ onlyAlnum rest = true.
Proof.
  unfold SwaggerSpecParser.methods. cbn [In].
  intros H. repeat (destruct H as [<- | H]; [eauto 6 |]). destruct H.
Qed.

Lemma optOrElse_falsy (o : option string) (fallback : string) :
  JS.truthyOpt o = false -> JS.optOrElse o fallback = fallback.
Proof.
  destruct o as [[| c s] |]; (discriminate || reflexivity).
Qed.

(** C2, as stated, fails for operations read from a document: the parser
    gives [GET /users/profiles] the identifier [getusersprofiles], and the
    function is named after it. *)
Lemma undeclared_id_named_after_stripped_path :
  ApiGenerator.generateFunctionName
    (SwaggerSpecParser.parseOperation "/users/profiles" "get" bareOperation)
  = "getusersprofiles" /\
  ~ undeclared_id_named_by_verb_and_segment.
Proof.
  split; [reflexivity |].
  intros Hclaim.
  specialize (Hclaim "/users/profiles" "get" "profiles" bareOperation).
  assert (Hname : "getusersprofiles" = "getProfiles"); [| discriminate].
  apply Hclaim.
  - now left.
  - reflexivity.
  - exists [""; "users"], []. repeat split. constructor.
Qed.

(** C2 (amended): for an endpoint whose [operationId] is empty, the function
    name is the lower-cased verb followed by the capitalized last
    non-parameter path segment ([Resource] when the path has none), so
    [GET /users/profiles] yields [getProfiles].  An operation read from a
    document that declares no identifier is given the identifier
    verb + path stripped of non-alphanumerics by the parser, and its
    function name is that identifier. *)
Theorem function_name_without_identifier :
  (forall (endpoint : SwaggerEndpoint) (seg : string),
      operationId endpoint = "" ->
      lastResourceSegment (path endpoint) seg ->
      ApiGenerator.generateFunctionName endpoint
      = JS.toLowerCase (method endpoint) ++ ApiGenerator.toPascalCase seg) /\
  (forall endpoint : SwaggerEndpoint,
      operationId endpoint = "" ->
      Forall (fun part => isResourceSegment part = false) (JS.split "/" (path endpoint)) ->
      ApiGenerator.generateFunctionName endpoint
      = JS.toLowerCase (method endpoint) ++ "Resource") /\
  (forall (path method : string) (operation : RawOperation),
      In method SwaggerSpecParser.methods ->
      JS.truthyOpt (raw_operationId operation) = false ->
      operationId (SwaggerSpecParser.parseOperation path method operation)
      = method ++ JS.stripNonAlnum path /\
      ApiGenerator.generateFunctionName (SwaggerSpecParser.parseOperation path method operation)
      = method ++ JS.stripNonAlnum path) /\
  ApiGenerator.generateFunctionName profilesEndpoint = "getProfiles".
Proof.
  repeat apply conj.
  - intros endpoint seg Hid Hseg.
    unfold ApiGenerator.generateFunctionName. rewrite Hid. cbn [JS.truthy].
    rewrite (pathParts_last _ _ Hseg). unfold JS.optOrElse, JS.orElse.
    destruct Hseg as (_ & _ & _ & Hres & _).
    apply andb_true_iff in Hres as [-> _]. reflexivity.
  - intros endpoint Hid Hnone.
    unfold ApiGenerator.generateFunctionName. rewrite Hid. cbn [JS.truthy].
    unfold ApiGenerator.pathParts.
    change (fun part => JS.truthy part && negb (JS.startsWith "{" part)) with isResourceSegment.
    now rewrite (filter_none _ _ _ Hnone).
  - intros path method operation Hmethod Hid.
    assert (Hop : operationId (SwaggerSpecParser.parseOperation path method operation)
                  = method ++ JS.stripNonAlnum path).
    { cbn [SwaggerSpecParser.parseOperation operationId]. now apply optOrElse_falsy. }
    split; [exact Hop |].
    unfold ApiGenerator.generateFunctionName. rewrite Hop.
    destruct (methods_shape method Hmethod) as (c & rest & -> & Hc & Hrest).
    cbn [String.append JS.truthy]. apply toCamelCase_alnum; [assumption |].
    now rewrite onlyAlnum_app, Hrest, onlyAlnum_strip.
  - reflexivity.
Qed.

Lemma function_name_without_identifier_witness :
  ApiGenerator.generateFunctionName
    (simpleEndpoint "/users/{userId}/profiles/{profileId}" "PUT" "" [] None)
  = "putProfiles" /\
  ApiGenerator.generateFunctionName (SwaggerSpecParser.parseOperation "/pets/{petId}" "delete" bareOperation)
  = "deletepetspetId".
Proof.
  destruct function_name_without_identifier as (Hseg & _ & Hparsed & _).
  split.
  - apply (Hseg (simpleEndpoint "/users/{userId}/profiles/{profileId}" "PUT" "" [] None) "profiles").
    + reflexivity.
    + exists [""; "users"; "{userId}"], ["{profileId}"]. repeat split. repeat constructor.
  - apply (Hparsed "/pets/{petId}" "delete" bareOperation).
    + cbn. tauto.
    + reflexivity.
Defined.

(** ** The type resolver, in the order of the source's tests *)

Lemma generateTypeFromSchema_eq (schema : Schema) :
  TypeGenerator.generateTypeFromSchema schema =
  match truthyRef schema with
  | Some r => TypeGenerator.toPascalCase (refTarget r "unknown")
  | None =>
      match (if String.eqb (type schema) "array" then items schema else None) with
      | Some itemSchema => TypeGenerator.generateTypeFromSchema itemSchema ++ "[]"
      | None =>
          match enum schema with
          | Some values => renderEnum values
          | None =>
              match (if String.eqb (type schema) "object" then properties schema else None) with
              | Some props => "{ " ++ JS.join "; " (map (inlineProperty schema) props) ++ " }"
              | None => TypeGenerator.mapSwaggerTypeToTypeScript (type schema)
              end
          end
      end
  end.
Proof.
  destruct schema as [ty fmt props its req en descr r].
  cbn [TypeGenerator.generateTypeFromSchema type items enum properties].
  destruct (truthyRef _); [reflexivity |].
  destruct its, (String.eqb ty "array"), en, props, (String.eqb ty "object"); reflexivity.
Qed.

Lemma capitalizeWords_not_any (s : string) : JS.capitalizeWords s <> "any".
Proof.
  destruct s as [| c rest]; [discriminate |].
  unfold JS.capitalizeWords. destruct (JS.isWord c) eqn:Hc.
  - intros [= Ha _]. now apply (toUpperChar_not_a c).
  - cbn [JS.capitalizeAfterSep]. destruct rest as [| c' rest']; [discriminate |].
    destruct ((Ascii.eqb c "-" || Ascii.eqb c "_") && JS.isWord c').
    + intros [= Ha _]. now apply (toUpperChar_not_a c').
    + intros [= -> _]. discriminate.
Qed.

(** ** C3: references to undefined schemas *)

(** C3, as stated, fails: a reference to the undefined schema [Missing]
    resolves to the name [Missing], not to [any]. *)
Lemma dangling_reference_keeps_its_name :
  TypeGenerator.generateTypeFromSchema (refSchema "#/components/schemas/Missing") = "Missing" /\
  generateInterfaces danglingDocument
  = "export interface Holder {" ++ nl ++ "  owner?: Missing;" ++ nl ++ "}" ++ nl /\
  ~ unresolved_reference_is_any.
Proof.
  repeat split.
  intros Hclaim.
  specialize (Hclaim danglingDocument (refSchema "#/components/schemas/Missing")
                     "#/components/schemas/Missing" eq_refl eq_refl).
  discriminate.
Qed.

Lemma split_slashFree (name : string) :
  slashFree name = true -> JS.split "/" name = [name].
Proof.
  induction name as [| c rest IH]; [reflexivity |].
  cbn [slashFree JS.split]. intros H. apply andb_true_iff in H as [Hc Hrest].
  apply negb_true_iff in Hc. now rewrite Hc, (IH Hrest).
Qed.

Lemma split_app (sep : ascii) (a b : string) :
  JS.split sep (a ++ String sep b) = (JS.split sep a ++ JS.split sep b)%list.
Proof.
  induction a as [| c a IH].
  - change ("" ++ String sep b) with (String sep b).
    cbn [JS.split]. now rewrite Ascii.eqb_refl.
  - change (String c a ++ String sep b) with (String c (a ++ String sep b)).
    cbn [JS.split]. rewrite IH. destruct (Ascii.eqb c sep); [reflexivity |].
    pose proof (split_nonempty sep a) as Hne.
    destruct (JS.split sep a) as [| seg segs]; [contradiction | reflexivity].
Qed.

(** The target of a reference that ends in [/name] is [name]. *)
Lemma refTarget_named (prefix name fallback : string) :
  JS.truthy name = true -> slashFree name = true ->
  refTarget (prefix ++ "/" ++ name) fallback = name.
Proof.
  intros Hname Hfree. unfold refTarget.
  change ("/" ++ name) with (String "/" name).
  rewrite split_app, (split_slashFree _ Hfree), lastElem_snoc.
  cbn [JS.optOrElse]. unfold JS.orElse. now rewrite Hname.
Qed.

Lemma append_brackets_not_any (s : string) : s ++ "[]" <> "any".
Proof.
  destruct s as [| c [| c' rest]]; intros H.
  - cbv in H. discriminate.
  - cbv in H. discriminate.
  - apply (f_equal String.length) in H.
    change (String c (String c' rest) ++ "[]") with (String c (String c' (rest ++ "[]"))) in H.
    cbn [String.length] in H. rewrite length_append in H. cbn [String.length] in H. lia.
Qed.

(** C3 (amended): a node that carries a non-empty [$ref] resolves to the
    canonical form of the last segment of the reference ([Unknown] if the
    reference ends in a slash), whether or not a schema of that name is
    defined: for a reference ending in [/name] it is the canonical form of
    [name], the named alias emitted for such a node is that name, and an
    array of such nodes is that name followed by [[]].  The table of named
    schemas is not an argument of the resolver, and the result is never
    [any]. *)
Theorem reference_resolves_to_its_name :
  (forall (schema : Schema) (r : string),
      truthyRef schema = Some r ->
      TypeGenerator.generateTypeFromSchema schema
      = TypeGenerator.toPascalCase (refTarget r "unknown") /\
      TypeGenerator.generateTypeFromSchema schema <> "any" /\
      (forall name : string,
          TypeGenerator.generateInterface name schema
          = "export type " ++ TypeGenerator.toPascalCase name ++ " = " ++
            TypeGenerator.toPascalCase (refTarget r name) ++ ";")) /\
  (forall (schema : Schema) (prefix target : string),
      truthyRef schema = Some (prefix ++ "/" ++ target) ->
      JS.truthy target = true -> slashFree target = true ->
      TypeGenerator.generateTypeFromSchema schema = TypeGenerator.toPascalCase target /\
      (forall name : string,
          TypeGenerator.generateInterface name schema
          = "export type " ++ TypeGenerator.toPascalCase name ++ " = " ++
            TypeGenerator.toPascalCase target ++ ";")) /\
  (forall (schema item : Schema) (r : string),
      truthyRef schema = None -> type schema = "array" -> items schema = Some item ->
      truthyRef item = Some r ->
      TypeGenerator.generateTypeFromSchema schema
      = TypeGenerator.toPascalCase (refTarget r "unknown") ++ "[]" /\
      TypeGenerator.generateTypeFromSchema schema <> "any").
Proof.
  assert (Hnode : forall (schema : Schema) (r : string),
             truthyRef schema = Some r ->
             TypeGenerator.generateTypeFromSchema schema
             = TypeGenerator.toPascalCase (refTarget r "unknown") /\
             (forall name : string,
                 TypeGenerator.generateInterface name schema
                 = "export type " ++ TypeGenerator.toPascalCase name ++ " = " ++
                   TypeGenerator.toPascalCase (refTarget r name) ++ ";")).
  { intros schema r Href. rewrite generateTypeFromSchema_eq, Href. split; [reflexivity |].
    intros name. unfold TypeGenerator.generateInterface. now rewrite Href. }
  split; [| split].
  - intros schema r Href. destruct (Hnode schema r Href) as [Hresolved Halias].
    split; [exact Hresolved |]. split; [| exact Halias].
    rewrite Hresolved. apply capitalizeWords_not_any.
  - intros schema prefix target Href Htarget Hfree.
    destruct (Hnode schema _ Href) as [Hresolved Halias].
    split.
    + now rewrite Hresolved, refTarget_named.
    + intros name. now rewrite Halias, refTarget_named.
  - intros schema item r Hnone Harray Hitems Href.
    rewrite generateTypeFromSchema_eq, Hnone, Harray, Hitems.
    change (String.eqb "array" "array") with true. cbv iota.
    rewrite (proj1 (Hnode item r Href)). split; [reflexivity |].
    apply append_brackets_not_any.
Qed.

Lemma reference_resolves_to_its_name_witness :
  TypeGenerator.generateTypeFromSchema (refSchema "#/components/schemas/user-profile")
  = "UserProfile" /\
  TypeGenerator.generateTypeFromSchema
    (mkSchema "array" None None (Some (refSchema "#/components/schemas/Missing")) None None
       None None)
  = "Missing[]".
Proof.
  split.
  - apply (proj1 (proj2 reference_resolves_to_its_name)
             (refSchema "#/components/schemas/user-profile") "#/components/schemas"
             "user-profile");
      reflexivity.
  - apply (proj2 (proj2 reference_resolves_to_its_name)
             (mkSchema "array" None None (Some (refSchema "#/components/schemas/Missing")) None
                None None None)
             (refSchema "#/components/schemas/Missing") "#/components/schemas/Missing");
      reflexivity.
Defined.

(** ** C6: mutually referring schemas *)

Lemma allOrNone_some (A B : Type) (f : A -> option B) (g : A -> B) (l : list A) :
  Forall (fun x => f x = Some (g x)) l ->
  SwaggerSpecParser.allOrNone (map f l) = Some (map g l).
Proof.
  induction 1 as [| x l Hx _ IH]; [reflexivity |].
  cbn [map SwaggerSpecParser.allOrNone]. now rewrite Hx, IH.
Qed.

Lemma allOrNone_none (A B : Type) (f : A -> option B) (l : list A) (x : A) :
  In x l -> f x = None -> SwaggerSpecParser.allOrNone (map f l) = None.
Proof.
  induction l as [| y l IH]; [contradiction |].
  intros [-> | Hin] Hx; cbn [map SwaggerSpecParser.allOrNone].
  - now rewrite Hx.
  - destruct (f y); [| reflexivity]. now rewrite (IH Hin Hx).
Qed.

(** A call that cannot finish for a property or for the items of an
    object cannot finish for the object, with one more frame. *)
Lemma parse_fails_with_child (Id : Type) (graph : SchemaGraph Id) (stack : nat) (a b : Id) :
  refersTo graph a b ->
  SwaggerSpecParser.parseSchemaGraph graph stack b = None ->
  SwaggerSpecParser.parseSchemaGraph graph (S stack) a = None.
Proof.
  intros [(props & key & Hprops & Hin) | Hitems] Hfail;
    cbn [SwaggerSpecParser.parseSchemaGraph].
  - rewrite Hprops.
    rewrite (allOrNone_none _ _
               (fun entry : string * Id =>
                  option_map (pair (fst entry))
                    (SwaggerSpecParser.parseSchemaGraph graph stack (snd entry)))
               props (key, b) Hin).
    + reflexivity.
    + cbn [snd]. now rewrite Hfail.
  - rewrite Hitems, Hfail. cbn [option_map].
    now destruct (match node_properties (graph a) with Some _ => _ | None => _ end).
Qed.

(** No stack suffices for an object from which the references can be
    followed for ever. *)
Lemma endless_references_never_parse (Id : Type) (graph : SchemaGraph Id)
  (endless : Id -> Prop) :
  (forall x : Id, endless x -> exists y : Id, endless y /\ refersTo graph x y) ->
  forall (stack : nat) (x : Id),
    endless x -> SwaggerSpecParser.parseSchemaGraph graph stack x = None.
Proof.
  intros Hnext. induction stack as [| stack IH]; intros x Hx; [reflexivity |].
  destruct (Hnext x Hx) as (y & Hy & Hrefers).
  exact (parse_fails_with_child _ graph stack x y Hrefers (IH y Hy)).
Qed.

Lemma mutual_objects_refer (x : MutualObject) :
  exists y : MutualObject, refersTo mutualGraph x y.
Proof.
  destruct x.
  - exists ObjectB. left. exists [("b", ObjectB)], "b". split; [reflexivity | now left].
  - exists ObjectA. left. exists [("a", ObjectA)], "a". split; [reflexivity | now left].
Qed.

(** On a finite tree, [parseSchema] finishes within a stack as deep as
    the tree, with the result of [parseSchemaObject]. *)
Lemma finite_schema_parses (schema : RawSchema) :
  forall stack : nat,
    rawDepth schema <= stack ->
    SwaggerSpecParser.parseSchemaGraph treeGraph stack schema
    = Some (SwaggerSpecParser.parseSchemaObject schema).
Proof.
  induction schema as [ty fmt props its req en d r Hprops Hits] using RawSchema_nested_ind.
  intros [| stack] Hdepth; cbn [rawDepth raw_properties raw_items] in Hdepth; [lia |].
  apply le_S_n in Hdepth.
  cbn [SwaggerSpecParser.parseSchemaGraph SwaggerSpecParser.parseSchemaObject treeGraph
       node_type node_format node_properties node_items node_required node_enum
       node_description node_ref raw_type raw_format raw_properties raw_items raw_required
       raw_enum raw_description raw_ref].
  assert (Hparsed_props :
            match props with
            | Some entries =>
                option_map Some
                  (SwaggerSpecParser.allOrNone
                     (map (fun entry : string * RawSchema =>
                             option_map (pair (fst entry))
                               (SwaggerSpecParser.parseSchemaGraph treeGraph stack (snd entry)))
                          entries))
            | None => Some None
            end
            = Some match props with
                   | Some entries =>
                       Some (map (fun entry =>
                                    (fst entry, SwaggerSpecParser.parseSchemaObject (snd entry)))
                               entries)
                   | None => None
                   end).
  { destruct props as [entries |]; [| reflexivity].
    rewrite (allOrNone_some _ _ _
               (fun entry : string * RawSchema =>
                  (fst entry, SwaggerSpecParser.parseSchemaObject (snd entry)))); [reflexivity |].
    assert (Hmax : list_max (map (fun entry => rawDepth (snd entry)) entries) <= stack) by lia.
    apply list_max_le in Hmax.
    rewrite List.Forall_forall in Hprops, Hmax |- *.
    intros entry Hin. rewrite (Hprops entry Hin); [reflexivity |].
    apply Hmax. now apply (in_map (fun entry => rawDepth (snd entry))). }
  assert (Hparsed_items :
            match its with
            | Some it => option_map Some (SwaggerSpecParser.parseSchemaGraph treeGraph stack it)
            | None => Some None
            end
            = Some match its with
                   | Some it => Some (SwaggerSpecParser.parseSchemaObject it)
                   | None => None
                   end).
  { destruct its as [it |]; [| reflexivity]. rewrite Hits; [reflexivity | lia]. }
  now rewrite Hparsed_props, Hparsed_items.
Qed.

Lemma truthy_append_slash (prefix target : string) : JS.truthy (prefix ++ "/" ++ target) = true.
Proof. now destruct prefix. Qed.




(** ** C7: required and optional properties *)

Lemma isRequired_iff (schema : Schema) (propName : string) :
  isRequired schema propName = true <-> In propName (requiredSet schema).
Proof.
  unfold isRequired, requiredSet. destruct (required schema) as [names |]; simpl.
  - rewrite existsb_exists. split.
    + intros (x & Hin & Heq). apply String.eqb_eq in Heq. now subst.
    + intros Hin. exists propName. split; [assumption | apply String.eqb_refl].
  - split; [discriminate | contradiction].
Qed.

Lemma interfaceLine_eq (schema : Schema) (entry : string * Schema) :
  TypeGenerator.interfaceLine schema entry
  = docComment (snd entry) ++ "  " ++ fst entry ++
    optionalMark (isRequired schema (fst entry)) ++ ": " ++
    TypeGenerator.generateTypeFromSchema (snd entry) ++ ";" ++ nl.
Proof. reflexivity. Qed.

(** C7: an object schema emits its properties in declaration order, each
    one without the [?] mark if and only if its name is in the schema's
    required set, both as an inline object type and as a named interface. *)
Theorem required_iff_not_optional (schema : Schema) (props : list (string * Schema)) :
  truthyRef schema = None ->
  enum schema = None ->
  type schema = "object" ->
  properties schema = Some props ->
  TypeGenerator.generateTypeFromSchema schema
  = "{ " ++ JS.join "; " (map (inlineProperty schema) props) ++ " }" /\
  (forall name : string,
      TypeGenerator.generateInterface name schema
      = "export interface " ++ TypeGenerator.toPascalCase name ++ " {" ++ nl ++
        String.concat "" (map (TypeGenerator.interfaceLine schema) props) ++ "}") /\
  (forall (propName : string) (propSchema : Schema),
      let propType := TypeGenerator.generateTypeFromSchema propSchema in
      (In propName (requiredSet schema) ->
       inlineProperty schema (propName, propSchema) = propName ++ ": " ++ propType /\
       TypeGenerator.interfaceLine schema (propName, propSchema)
       = docComment propSchema ++ "  " ++ propName ++ ": " ++ propType ++ ";" ++ nl) /\
      (~ In propName (requiredSet schema) ->
       inlineProperty schema (propName, propSchema) = propName ++ "?: " ++ propType /\
       TypeGenerator.interfaceLine schema (propName, propSchema)
       = docComment propSchema ++ "  " ++ propName ++ "?: " ++ propType ++ ";" ++ nl)).
Proof.
  intros Href Henum Htype Hprops. repeat apply conj.
  - rewrite generateTypeFromSchema_eq, Href, Henum, Htype, Hprops. reflexivity.
  - intros name. unfold TypeGenerator.generateInterface.
    rewrite Href, Henum, Htype, Hprops. reflexivity.
  - intros propName propSchema propType. rewrite interfaceLine_eq. unfold inlineProperty.
    cbn [fst snd]. split; intros Hin.
    + apply isRequired_iff in Hin. rewrite Hin. split; reflexivity.
    + destruct (isRequired schema propName) eqn:Hreq.
      * apply isRequired_iff in Hreq. contradiction.
      * split; reflexivity.
Qed.

Lemma required_iff_not_optional_witness :
  TypeGenerator.generateTypeFromSchema idNameSchema = "{ id: string; name?: string }" /\
  TypeGenerator.generateInterface "user" idNameSchema
  = "export interface User {" ++ nl ++ "  id: string;" ++ nl ++ "  name?: string;" ++ nl ++ "}".
Proof.
  destruct (required_iff_not_optional idNameSchema
              [("id", plainSchema "string"); ("name", plainSchema "string")]
              eq_refl eq_refl eq_refl eq_refl) as (Hinline & Hinterface & _).
  split.
  - rewrite Hinline. reflexivity.
  - rewrite Hinterface. reflexivity.
Defined.

(** ** C8: one canonical form for emitted names *)

Lemma toLowerCase_fixed (s : string) : hasUpper s = false -> JS.toLowerCase s = s.
Proof.
  induction s as [| c s IH]; [reflexivity |].
  cbn [hasUpper JS.toLowerCase]. intros H. apply orb_false_iff in H as [Hc Hs].
  unfold JS.toLowerChar. now rewrite Hc, (IH Hs).
Qed.

(** A character that is not a separator is copied. *)
Lemma capitalizeAfterSep_copy (d : ascii) (s : string) :
  Ascii.eqb d "-" || Ascii.eqb d "_" = false ->
  JS.capitalizeAfterSep (String d s) = String d (JS.capitalizeAfterSep s).
Proof.
  intros Hd. destruct s as [| c s]; [reflexivity |].
  cbn [JS.capitalizeAfterSep]. now rewrite Hd.
Qed.

(** Letters and digits are copied up to the first other character. *)
Lemma capitalizeAfterSep_alnum_prefix (word rest : string) :
  onlyAlnum word = true ->
  JS.capitalizeAfterSep (word ++ rest) = word ++ JS.capitalizeAfterSep rest.
Proof.
  induction word as [| d word IH]; [reflexivity |].
  cbn [onlyAlnum]. intros H. apply andb_true_iff in H as [Hd Hword].
  change (String d word ++ rest) with (String d (word ++ rest)).
  change (String d word ++ JS.capitalizeAfterSep rest)
    with (String d (word ++ JS.capitalizeAfterSep rest)).
  rewrite (capitalizeAfterSep_copy d _ (alnum_not_separator d Hd)).
  now rewrite (IH Hword).
Qed.

Lemma alnum_is_word (c : ascii) : JS.isAlnum c = true -> JS.isWord c = true.
Proof. unfold JS.isWord. now intros ->. Qed.

(** A word of letters and digits, a [-] or [_], and a word character:
    the separator goes, the character after it is capitalized. *)
Lemma capitalizeWords_joined (sep : ascii) (word : string) (c : ascii) (rest : string) :
  Ascii.eqb sep "-" || Ascii.eqb sep "_" = true ->
  JS.truthy word = true -> onlyAlnum word = true -> JS.isWord c = true ->
  JS.capitalizeWords (word ++ String sep (String c rest))
  = JS.capitalizeWords word ++ String (JS.toUpperChar c) (JS.capitalizeAfterSep rest).
Proof.
  intros Hsep Hword Halnum Hc. destruct word as [| d word]; [discriminate |].
  cbn [onlyAlnum] in Halnum. apply andb_true_iff in Halnum as [Hd Halnum].
  change (String d word ++ String sep (String c rest))
    with (String d (word ++ String sep (String c rest))).
  unfold JS.capitalizeWords. rewrite (alnum_is_word d Hd).
  rewrite !(capitalizeAfterSep_alnum_prefix word) by exact Halnum.
  rewrite (capitalizeAfterSep_alnum word Halnum).
  cbn [JS.capitalizeAfterSep]. now rewrite Hsep, Hc.
Qed.




(** ** C4: the order of the parsed operations *)

Lemma parsePathItem_eq (path : string) (item : PathItem) :
  SwaggerSpecParser.parsePathItem path (Some item)
  = flat_map (pushedFor path item) SwaggerSpecParser.methods.
Proof. reflexivity. Qed.

Lemma pushed_keys (path : string) (item : PathItem) (verbs : list string) :
  map endpointKey (flat_map (pushedFor path item) verbs)
  = map (fun verb => (path, JS.toUpperCase verb)) (List.filter (declares item) verbs).
Proof.
  induction verbs as [| verb verbs IH]; [reflexivity |].
  cbn [flat_map List.filter]. rewrite map_app, IH.
  unfold pushedFor at 1, declares at 2. now destruct (lookupKey verb item).
Qed.

Lemma pushed_methods_sublist (path : string) (item : PathItem) (verbs : list string) :
  sublist (map method (flat_map (pushedFor path item) verbs)) (map JS.toUpperCase verbs).
Proof.
  induction verbs as [| verb verbs IH]; [constructor |].
  cbn [flat_map map]. unfold pushedFor at 1. destruct (lookupKey verb item); cbn.
  - now apply sublist_skip.
  - now apply sublist_cons.
Qed.

Lemma flat_map_step (A B : Type) (f : A -> list B) (x : A) (l : list A) :
  flat_map f (x :: l) = (f x ++ flat_map f l)%list.
Proof. reflexivity. Qed.

Lemma operationKeys_step (path : string) (item : option PathItem)
  (paths : list (string * option PathItem)) :
  operationKeys ((path, item) :: paths)
  = (match item with
     | Some it => map (fun verb => (path, JS.toUpperCase verb)) (verbsInFixedOrder it)
     | None => []
     end ++ operationKeys paths)%list.
Proof. reflexivity. Qed.

Lemma parse_endpoint_keys (paths : list (string * option PathItem)) :
  map endpointKey
      (flat_map (fun entry => SwaggerSpecParser.parsePathItem (fst entry) (snd entry)) paths)
  = operationKeys paths.
Proof.
  induction paths as [| [path item] paths IH]; [reflexivity |].
  rewrite flat_map_step, operationKeys_step, map_app, IH. f_equal.
  destruct item as [item |]; [| reflexivity].
  apply pushed_keys.
Qed.

(** C4, as stated, fails: under a path that declares [post] before [get],
    the operations come out as GET, then POST. *)
Lemma declared_post_then_get_parsed_get_first :
  declaredVerbs postThenGet = ["post"; "get"] /\
  map method (SwaggerSpecParser.parsePathItem "/pets" (Some postThenGet)) = ["GET"; "POST"] /\
  ~ verbs_in_declaration_order.
Proof.
  repeat split.
  intros Hclaim. specialize (Hclaim "/pets" postThenGet). discriminate.
Qed.

(** C4 (amended): the operations are listed path by path, paths in their
    declaration order; within a path the verbs present come in the fixed
    order get, post, put, patch, delete, options, head, whatever order the
    document declares them in. *)
Theorem operations_in_path_then_fixed_verb_order (api : RawApi) :
  map endpointKey (endpoints (SwaggerSpecParser.parse api))
  = operationKeys (default [] (api_paths api)) /\
  (forall (path : string) (item : PathItem),
      sublist (map method (SwaggerSpecParser.parsePathItem path (Some item)))
              ["GET"; "POST"; "PUT"; "PATCH"; "DELETE"; "OPTIONS"; "HEAD"]) /\
  (forall (path : string) (item : PathItem),
      map method (SwaggerSpecParser.parsePathItem path (Some item))
      = map JS.toUpperCase (verbsInFixedOrder item)).
Proof.
  repeat apply conj.
  - cbn [SwaggerSpecParser.parse endpoints].
    destruct (api_paths api) as [paths |]; [apply parse_endpoint_keys | reflexivity].
  - intros path item. apply (pushed_methods_sublist path item SwaggerSpecParser.methods).
  - intros path item.
    pose proof (pushed_keys path item SwaggerSpecParser.methods) as Hkeys.
    apply (f_equal (map snd)) in Hkeys.
    rewrite !map_map in Hkeys. cbn [endpointKey snd] in Hkeys. exact Hkeys.
Qed.

Example operations_of_petsApi :
  map endpointKey (endpoints (SwaggerSpecParser.parse petsApi))
  = [("/pets/{petId}", "GET"); ("/pets/{petId}", "DELETE"); ("/pets", "GET"); ("/pets", "POST")].
Proof. reflexivity. Qed.

(** ** C9: missing and empty seed lists *)

Section Seeding.

Variable SeedRecord : Type.
Variable stringify : list SeedRecord -> string.
Variable setup : string -> string.
Variable crud : string -> string -> string.

Lemma seedDataBody_empty (controllerName : string) :
  DbGenerator.seedDataBody SeedRecord stringify controllerName None
  = DbGenerator.seedDataBody SeedRecord stringify controllerName (Some []).
Proof. reflexivity. Qed.

Lemma generateDbFile_empty (controller : string) (members : list SwaggerEndpoint)
  (parsedSwagger : ParsedSwagger) :
  DbGenerator.generateDbFile SeedRecord stringify crud controller members parsedSwagger None
  = DbGenerator.generateDbFile SeedRecord stringify crud controller members parsedSwagger (Some []).
Proof. reflexivity. Qed.

(** Two seed inputs that give every controller either the same records or
    none against an empty list produce the same files. *)
Lemma generate_ext (parsedSwagger : ParsedSwagger)
  (seed1 seed2 : option (gmap string (list SeedRecord))) :
  (forall controller : string,
      DbGenerator.controllerSeedData SeedRecord seed1 controller
      = DbGenerator.controllerSeedData SeedRecord seed2 controller \/
      (DbGenerator.controllerSeedData SeedRecord seed1 controller = None /\
       DbGenerator.controllerSeedData SeedRecord seed2 controller = Some [])) ->
  DbGenerator.generate SeedRecord stringify setup crud parsedSwagger seed1
  = DbGenerator.generate SeedRecord stringify setup crud parsedSwagger seed2.
Proof.
  intros Hseed. unfold DbGenerator.generate.
  destruct (DbGenerator.groupEndpointsByController (endpoints parsedSwagger))
    as [controllerGroups |]; [| reflexivity].
  do 2 f_equal.
  apply map_ext. intros [controller members]. cbn [fst snd]. f_equal.
  destruct (Hseed controller) as [-> | [-> ->]]; [reflexivity | apply generateDbFile_empty].
Qed.

End Seeding.



(** ** C10: storage groups ignore the case of tags *)

Lemma sameLetter_lower (c d : ascii) :
  sameLetter c d = true -> JS.toLowerChar c = JS.toLowerChar d.
Proof.
  unfold sameLetter. rewrite !orb_true_iff, !andb_true_iff.
  intros [[H | [_ H]] | [_ H]]; apply ascii_eqb_true in H; subst;
    now rewrite ?toLowerChar_idem.
Qed.

Lemma sameUpToCase_lower (a b : string) :
  sameUpToCase a b = true -> JS.toLowerCase a = JS.toLowerCase b.
Proof.
  revert b. induction a as [| c a IH]; intros [| d b]; simpl; try discriminate.
  - reflexivity.
  - intros H. apply andb_true_iff in H as [Hcd Hab].
    now rewrite (sameLetter_lower c d Hcd), (IH b Hab).
Qed.

Lemma sameUpToCase_truthy (a b : string) :
  sameUpToCase a b = true -> JS.truthy a = JS.truthy b.
Proof. destruct a, b; simpl; (discriminate || reflexivity). Qed.

Lemma toLowerCase_no_upper (s : string) : hasUpper (JS.toLowerCase s) = false.
Proof.
  induction s as [| c s IH]; simpl; [reflexivity |].
  now rewrite toLowerChar_not_upper, IH.
Qed.

Lemma hasUpper_app (a b : string) : hasUpper (a ++ b) = hasUpper a || hasUpper b.
Proof.
  induction a as [| c a IH]; simpl; [reflexivity |]. now rewrite IH, orb_assoc.
Qed.

(** Tags that differ only in case give the same storage-group key. *)
Lemma controllerKey_ignores_case (e1 e2 : SwaggerEndpoint) (t1 t2 : string) :
  firstTag e1 = Some t1 -> firstTag e2 = Some t2 -> sameUpToCase t1 t2 = true ->
  controllerKey e1 = controllerKey e2.
Proof.
  intros H1 H2 Hsame. unfold controllerKey, controllerOf. rewrite H1, H2.
  unfold JS.optOrElse, JS.orElse. rewrite (sameUpToCase_truthy _ _ Hsame).
  destruct (JS.truthy t2); [now apply sameUpToCase_lower | reflexivity].
Qed.

Lemma pushToGroup_lookup_same (key : string) (e : SwaggerEndpoint)
  (groups : list (string * list SwaggerEndpoint)) :
  lookupKey key (pushToGroup key e groups)
  = Some (default [] (lookupKey key groups) ++ [e])%list.
Proof.
  induction groups as [| [k g] rest IH]; simpl.
  - now rewrite String.eqb_refl.
  - destruct (String.eqb k key) eqn:Hk; simpl; rewrite Hk; [reflexivity | exact IH].
Qed.

Lemma pushToGroup_lookup_other (key key' : string) (e : SwaggerEndpoint)
  (groups : list (string * list SwaggerEndpoint)) :
  key <> key' ->
  lookupKey key' (pushToGroup key e groups) = lookupKey key' groups.
Proof.
  intros Hne. induction groups as [| [k g] rest IH]; simpl.
  - now apply String.eqb_neq in Hne as ->.
  - destruct (String.eqb k key) eqn:Hk; simpl.
    + apply String.eqb_eq in Hk as ->. now apply String.eqb_neq in Hne as ->.
    + now rewrite IH.
Qed.

Lemma pushToGroup_keeps (x e : SwaggerEndpoint) (key key' : string)
  (groups : list (string * list SwaggerEndpoint)) :
  inGroup x key' groups -> inGroup x key' (pushToGroup key e groups).
Proof.
  intros (members & Hlookup & Hin). destruct (String.eqb_spec key key') as [-> | Hne].
  - exists (members ++ [e])%list. rewrite pushToGroup_lookup_same, Hlookup.
    split; [reflexivity | apply in_or_app; now left].
  - exists members. now rewrite pushToGroup_lookup_other.
Qed.

Lemma pushToGroup_adds (e : SwaggerEndpoint) (key : string)
  (groups : list (string * list SwaggerEndpoint)) :
  inGroup e key (pushToGroup key e groups).
Proof.
  eexists. rewrite pushToGroup_lookup_same. split; [reflexivity |].
  apply in_or_app. right. now left.
Qed.

Lemma grouped_member (endpoints : list SwaggerEndpoint) (x : SwaggerEndpoint) :
  forall groups : list (string * list SwaggerEndpoint),
    In x endpoints \/ inGroup x (controllerKey x) groups ->
    inGroup x (controllerKey x) (fold_left groupStep endpoints groups).
Proof.
  induction endpoints as [| e endpoints IH]; intros groups H; cbn [fold_left].
  - destruct H as [[] | H]. exact H.
  - apply IH. destruct H as [[-> | Hin] | Hmem].
    + right. apply pushToGroup_adds.
    + now left.
    + right. now apply pushToGroup_keeps.
Qed.

Lemma pushToGroup_keys (key : string) (e : SwaggerEndpoint)
  (groups : list (string * list SwaggerEndpoint)) :
  map fst (pushToGroup key e groups) = setAdd key (map fst groups).
Proof.
  unfold setAdd. induction groups as [| [k g] rest IH]; [reflexivity |].
  cbn [pushToGroup map fst existsb]. rewrite (String.eqb_sym key k).
  destruct (String.eqb k key); cbn [orb map fst]; [reflexivity |].
  rewrite IH. now destruct (existsb (String.eqb key) (map fst rest)).
Qed.

Lemma grouped_keys (endpoints : list SwaggerEndpoint) :
  forall groups : list (string * list SwaggerEndpoint),
    map fst (fold_left groupStep endpoints groups)
    = fold_left (fun controllers endpoint => setAdd (controllerKey endpoint) controllers)
                endpoints (map fst groups).
Proof.
  induction endpoints as [| e endpoints IH]; intros groups; cbn [fold_left]; [reflexivity |].
  rewrite IH. unfold groupStep. now rewrite pushToGroup_keys.
Qed.

Lemma setAdd_lowercase (key : string) (controllers : list string) :
  hasUpper key = false ->
  Forall (fun c => hasUpper c = false) controllers ->
  Forall (fun c => hasUpper c = false) (setAdd key controllers).
Proof.
  intros Hkey Hall. unfold setAdd. destruct (existsb _ _); [assumption |].
  apply Forall_app. split; [assumption | now constructor].
Qed.

Lemma controllers_lowercase (endpoints : list SwaggerEndpoint) :
  forall controllers : list string,
    Forall (fun c => hasUpper c = false) controllers ->
    Forall (fun c => hasUpper c = false)
           (fold_left (fun controllers endpoint => setAdd (controllerKey endpoint) controllers)
                      endpoints controllers).
Proof.
  induction endpoints as [| e endpoints IH]; intros controllers Hall; cbn [fold_left].
  - assumption.
  - apply IH, setAdd_lowercase; [apply toLowerCase_no_upper | assumption].
Qed.

Lemma setAdd_all (P : string -> Prop) (key : string) (controllers : list string) :
  P key -> Forall P controllers -> Forall P (setAdd key controllers).
Proof.
  intros Hkey Hall. unfold setAdd. destruct (existsb _ _); [assumption |].
  apply Forall_app. split; [assumption | now constructor].
Qed.

Lemma lookupKey_absent (A : Type) (entries : list (string * A)) (key : string) :
  ~ In key (map fst entries) -> lookupKey key entries = None.
Proof.
  induction entries as [| [k v] entries IH]; cbn [map fst lookupKey In]; intros Hnotin.
  - reflexivity.
  - destruct (String.eqb_spec k key) as [-> | _]; [tauto |]. apply IH. tauto.
Qed.

Lemma pushStep_thrown (endpoints : list SwaggerEndpoint) : fold_left pushStep endpoints None = None.
Proof. induction endpoints as [| e endpoints IH]; [reflexivity | exact IH]. Qed.

(** With no key that [Object.prototype] provides, the loop runs to its
    end and leaves what pushing every endpoint leaves. *)
Lemma grouping_returns (endpoints : list SwaggerEndpoint) :
  forall own : list (string * list SwaggerEndpoint),
    Forall (fun e => JS.inherited (controllerKey e) = false) endpoints ->
    fold_left pushStep endpoints (Some own) = Some (fold_left groupStep endpoints own).
Proof.
  induction endpoints as [| e endpoints IH]; intros own Hsafe; [reflexivity |].
  apply List.Forall_cons_iff in Hsafe as [He Hsafe].
  cbn [fold_left pushStep]. unfold pushEndpoint. rewrite He.
  destruct (lookupKey (controllerKey e) own); now apply IH.
Qed.

(** The first endpoint whose key [Object.prototype] provides ends the
    loop with a [TypeError]. *)
Lemma grouping_throws (endpoints : list SwaggerEndpoint) :
  forall own : list (string * list SwaggerEndpoint),
    Forall (fun key => JS.inherited key = false) (map fst own) ->
    Exists (fun e => JS.inherited (controllerKey e) = true) endpoints ->
    fold_left pushStep endpoints (Some own) = None.
Proof.
  induction endpoints as [| e endpoints IH]; intros own Hown Hbad.
  - inversion Hbad.
  - cbn [fold_left pushStep]. unfold pushEndpoint.
    destruct (JS.inherited (controllerKey e)) eqn:He.
    + rewrite lookupKey_absent; [apply pushStep_thrown |].
      intros Hin. rewrite List.Forall_forall in Hown. specialize (Hown _ Hin). congruence.
    + assert (Hnext : fold_left pushStep endpoints
                        (Some (pushToGroup (controllerKey e) e own)) = None).
      { apply IH.
        - rewrite pushToGroup_keys. now apply setAdd_all.
        - apply List.Exists_cons in Hbad as [Hbad | Hbad]; [congruence | exact Hbad]. }
      now destruct (lookupKey (controllerKey e) own).
Qed.

(** The keys that [Object.prototype] provides and a lower-cased tag can
    equal. *)
Lemma inherited_lowercase_key (key : string) :
  hasUpper key = false ->
  (JS.inherited key = true <-> key = "constructor" \/ key = "__proto__").
Proof.
  intros Hlower. split.
  - intros Hinherited. unfold JS.inherited in Hinherited.
    apply existsb_exists in Hinherited as (name & Hin & Heq).
    apply String.eqb_eq in Heq. subst name. cbn [JS.objectPrototypeKeys In] in Hin.
    repeat (destruct Hin as [<- | Hin]; [first [discriminate Hlower | auto] |]).
    destruct Hin.
  - intros [-> | ->]; reflexivity.
Qed.

(** C10: two operations whose first tags differ only in letter case fall
    in the same storage group, and every storage-group key, store name and
    generated file name is free of upper-case letters, for every document
    none of whose keys is a name that [Object.prototype] provides; the
    keys, in the order of [Object.entries], are the store names up to
    order.  For a document with such a key ([constructor] or [__proto__],
    so also for the tags [Constructor] and [constructor], which differ only
    in case) the grouping raises a [TypeError]: no group is formed and
    only [db-setup.ts] is written. *)
Theorem storage_groups_ignore_case (parsedSwagger : ParsedSwagger) :
  (Forall (fun e => JS.inherited (controllerKey e) = false) (endpoints parsedSwagger) ->
   exists groups : list (string * list SwaggerEndpoint),
     DbGenerator.groupEndpointsByController (endpoints parsedSwagger) = Some groups /\
     ApiGenerator.groupEndpointsByController (endpoints parsedSwagger) = Some groups /\
     (forall (e1 e2 : SwaggerEndpoint) (t1 t2 : string),
         In e1 (endpoints parsedSwagger) -> In e2 (endpoints parsedSwagger) ->
         firstTag e1 = Some t1 -> firstTag e2 = Some t2 ->
         sameUpToCase t1 t2 = true ->
         exists (key : string) (members : list SwaggerEndpoint),
           lookupKey key groups = Some members /\ In e1 members /\ In e2 members) /\
     (forall (key : string) (members : list SwaggerEndpoint),
         In (key, members) (JS.entries groups) -> hasUpper key = false) /\
     Permutation (map fst (JS.entries groups))
       (DbGenerator.getUniqueControllers parsedSwagger) /\
     (forall (SeedRecord : Type) (stringify : list SeedRecord -> string)
             (setup : string -> string) (crud : string -> string -> string)
             (seedData : option (gmap string (list SeedRecord))) (file content : string),
         In (file, content)
            (fst (DbGenerator.generate SeedRecord stringify setup crud parsedSwagger seedData)) ->
         hasUpper file = false)) /\
  (forall controller : string,
      In controller (DbGenerator.getUniqueControllers parsedSwagger) ->
      hasUpper controller = false) /\
  (forall endpoint : SwaggerEndpoint,
      JS.inherited (controllerKey endpoint) = true <->
      controllerKey endpoint = "constructor" \/ controllerKey endpoint = "__proto__") /\
  (Exists (fun e => JS.inherited (controllerKey e) = true) (endpoints parsedSwagger) ->
   DbGenerator.groupEndpointsByController (endpoints parsedSwagger) = None /\
   ApiGenerator.groupEndpointsByController (endpoints parsedSwagger) = None /\
   (forall (SeedRecord : Type) (stringify : list SeedRecord -> string)
           (setup : string -> string) (crud : string -> string -> string)
           (seedData : option (gmap string (list SeedRecord))),
       DbGenerator.generate SeedRecord stringify setup crud parsedSwagger seedData
       = ([("db-setup.ts", DbGenerator.generateDbSetup setup parsedSwagger)],
          DbGenerator.ThrewTypeError))).
Proof.
  assert (Hlower : Forall (fun c => hasUpper c = false)
                          (DbGenerator.getUniqueControllers parsedSwagger)).
  { apply (controllers_lowercase (endpoints parsedSwagger) []). constructor. }
  split; [| split; [| split]].
  - intros Hsafe.
    pose proof (grouping_returns (endpoints parsedSwagger) [] Hsafe) as Hreturns.
    set (groups := fold_left groupStep (endpoints parsedSwagger) []) in *.
    assert (Hkeys : map fst groups = DbGenerator.getUniqueControllers parsedSwagger).
    { apply (grouped_keys (endpoints parsedSwagger) []). }
    assert (Hgroups : forall key members, In (key, members) groups -> hasUpper key = false).
    { intros key members Hin. rewrite <- Hkeys in Hlower.
      rewrite List.Forall_forall in Hlower. apply Hlower.
      apply in_map_iff. now exists (key, members). }
    exists groups. split; [exact Hreturns |]. split; [exact Hreturns |].
    split; [| split; [| split]].
    + intros e1 e2 t1 t2 Hin1 Hin2 Htag1 Htag2 Hsame.
      pose proof (controllerKey_ignores_case e1 e2 t1 t2 Htag1 Htag2 Hsame) as Hkey.
      destruct (grouped_member (endpoints parsedSwagger) e1 [] (or_introl Hin1))
        as (members1 & Hlookup1 & Hmem1).
      destruct (grouped_member (endpoints parsedSwagger) e2 [] (or_introl Hin2))
        as (members2 & Hlookup2 & Hmem2).
      rewrite Hkey in Hlookup1. fold groups in Hlookup1, Hlookup2.
      exists (controllerKey e2), members2.
      assert (members1 = members2) as -> by congruence.
      now repeat split.
    + intros key members Hin. apply (proj1 (in_entries _ _ _)) in Hin.
      exact (Hgroups key members Hin).
    + rewrite <- Hkeys. apply Permutation_map, entries_perm.
    + intros SeedRecord stringify setup crud seedData file content Hin.
      unfold DbGenerator.generate in Hin.
      change (DbGenerator.groupEndpointsByController (endpoints parsedSwagger))
        with (fold_left pushStep (endpoints parsedSwagger) (Some [])) in Hin.
      rewrite Hreturns in Hin. cbn [fst] in Hin.
      apply in_app_or in Hin as [[[= <- _] | []] | Hin]; [reflexivity |].
      apply in_map_iff in Hin as ([key members] & [= <- _] & Hin).
      apply (proj1 (in_entries _ _ _)) in Hin.
      cbn [fst]. rewrite hasUpper_app, (Hgroups key members Hin). reflexivity.
  - now apply List.Forall_forall.
  - intros endpoint. apply inherited_lowercase_key, toLowerCase_no_upper.
  - intros Hbad.
    pose proof (grouping_throws (endpoints parsedSwagger) [] (@List.Forall_nil _ _) Hbad)
      as Hthrows.
    split; [exact Hthrows |]. split; [exact Hthrows |].
    intros SeedRecord stringify setup crud seedData.
    unfold DbGenerator.generate.
    change (DbGenerator.groupEndpointsByController (endpoints parsedSwagger))
      with (fold_left pushStep (endpoints parsedSwagger) (Some [])).
    now rewrite Hthrows.
Qed.

Lemma storage_groups_ignore_case_witness :
  (exists (key : string) (members : list SwaggerEndpoint)
          (groups : list (string * list SwaggerEndpoint)),
      DbGenerator.groupEndpointsByController (endpoints mixedCaseDocument) = Some groups /\
      lookupKey key groups = Some members /\
      In (simpleEndpoint "/users" "GET" "listUsers" [] (Some ["Users"])) members /\
      In (simpleEndpoint "/users" "POST" "createUser" [] (Some ["USERS"; "admin"])) members) /\
  DbGenerator.groupEndpointsByController (endpoints constructorDocument) = None /\
  DbGenerator.generate nat (fun _ => "[]") (fun names => names) (fun _ _ => "")
    constructorDocument None
  = ([("db-setup.ts", "'constructor'")], DbGenerator.ThrewTypeError).
Proof.
  split.
  - destruct (proj1 (storage_groups_ignore_case mixedCaseDocument))
      as (groups & Hgroups & _ & Hsame & _).
    + repeat constructor.
    + destruct (Hsame (simpleEndpoint "/users" "GET" "listUsers" [] (Some ["Users"]))
                  (simpleEndpoint "/users" "POST" "createUser" [] (Some ["USERS"; "admin"]))
                  "Users" "USERS") as (key & members & Hlookup & Hin1 & Hin2);
        [cbn; tauto | cbn; tauto | reflexivity | reflexivity | reflexivity |].
      exists key, members, groups. now repeat split.
  - assert (Hbad : Exists (fun e => JS.inherited (controllerKey e) = true)
                     (endpoints constructorDocument)).
    { apply List.Exists_cons_hd. reflexivity. }
    destruct (proj2 (proj2 (proj2 (storage_groups_ignore_case constructorDocument))) Hbad)
      as (Hdb & _ & Hgenerate).
    split; [exact Hdb |].
    exact (Hgenerate nat (fun _ => "[]") (fun names => names) (fun _ _ => "") None).
Defined.

(** * Further properties of the parser *)

(** ** Parsed schemas are in normal form *)

Lemma optOrElse_truthy (o : option string) (fallback : string) :
  JS.truthy fallback = true -> JS.truthy (JS.optOrElse o fallback) = true.
Proof.
  intros Hfb. destruct o as [[| c s] |]; simpl; auto.
Qed.

Lemma orElse_truthy_id (s fallback : string) :
  JS.truthy s = true -> JS.optOrElse (Some s) fallback = s.
Proof.
  unfold JS.optOrElse, JS.orElse. now intros ->.
Qed.

Lemma parseSchemaObject_typed (schema : RawSchema) :
  everyNodeTyped (SwaggerSpecParser.parseSchemaObject schema) = true.
Proof.
  induction schema as [ty fmt props its req en d r Hprops Hits] using RawSchema_nested_ind.
  cbn [SwaggerSpecParser.parseSchemaObject everyNodeTyped type items properties
       raw_type raw_items raw_properties].
  rewrite optOrElse_truthy by reflexivity. cbn [andb].
  apply andb_true_iff. split.
  - destruct its as [it |]; [exact Hits | reflexivity].
  - destruct props as [entries |]; [| reflexivity].
    rewrite forallb_forall. intros entry Hin.
    apply in_map_iff in Hin as (raw & <- & Hin). cbn [snd].
    rewrite List.Forall_forall in Hprops. now apply Hprops.
Qed.

Lemma parseSchemaObject_idempotent (schema : RawSchema) :
  SwaggerSpecParser.parseSchemaObject
    (schemaAsDocument (SwaggerSpecParser.parseSchemaObject schema))
  = SwaggerSpecParser.parseSchemaObject schema.
Proof.
  induction schema as [ty fmt props its req en d r Hprops Hits] using RawSchema_nested_ind.
  cbn [SwaggerSpecParser.parseSchemaObject schemaAsDocument type format items properties
       required enum description ref raw_type raw_format raw_items raw_properties
       raw_required raw_enum raw_description raw_ref].
  rewrite orElse_truthy_id by (now apply optOrElse_truthy).
  f_equal.
  - destruct props as [entries |]; [| reflexivity]. f_equal.
    rewrite !map_map. apply List.map_ext_Forall.
    revert Hprops. apply List.Forall_impl. intros entry Hentry. cbn [fst snd]. now rewrite Hentry.
  - destruct its as [it |]; [| reflexivity]. now rewrite Hits.
Qed.

(** X1: a parsed schema is never left without a type, at any depth (a
    schema that is absent becomes the [any] schema, a schema without type
    an [object]), and parsing a parsed schema again changes nothing. *)
Theorem parsed_schema_normal_form (schema : option RawSchema) :
  everyNodeTyped (SwaggerSpecParser.parseSchema schema) = true /\
  SwaggerSpecParser.parseSchema (Some (schemaAsDocument (SwaggerSpecParser.parseSchema schema)))
  = SwaggerSpecParser.parseSchema schema /\
  type (SwaggerSpecParser.parseSchema None) = "any".
Proof.
  destruct schema as [raw |]; cbn [SwaggerSpecParser.parseSchema].
  - repeat split; [apply parseSchemaObject_typed | apply parseSchemaObject_idempotent].
  - repeat split.
Qed.

(** ** The endpoints of a document *)

Lemma in_parsePathItem (path : string) (item : PathItem) (endpoint : SwaggerEndpoint) :
  In endpoint (SwaggerSpecParser.parsePathItem path (Some item)) <->
  exists (verb : string) (operation : RawOperation),
    In verb SwaggerSpecParser.methods /\
    lookupKey verb item = Some operation /\
    endpoint = SwaggerSpecParser.parseOperation path verb operation.
Proof.
  cbn [SwaggerSpecParser.parsePathItem]. rewrite in_flat_map. split.
  - intros (verb & Hverb & Hin). destruct (lookupKey verb item) as [operation |] eqn:Hlookup.
    + destruct Hin as [<- | []]. eauto.
    + destruct Hin.
  - intros (verb & operation & Hverb & Hlookup & ->).
    exists verb. split; [assumption |]. rewrite Hlookup. now left.
Qed.

(** X2: the parsed endpoints are exactly the operations that the document
    declares under one of the seven verbs: none is dropped, and nothing is
    made of any other key of a path item. *)
Theorem parsed_endpoints_are_declared_operations
  (api : RawApi) (endpoint : SwaggerEndpoint) :
  In endpoint (endpoints (SwaggerSpecParser.parse api)) <->
  exists (paths : list (string * option PathItem)) (path : string) (item : PathItem)
         (verb : string) (operation : RawOperation),
    api_paths api = Some paths /\
    In (path, Some item) paths /\
    In verb ["get"; "post"; "put"; "patch"; "delete"; "options"; "head"] /\
    lookupKey verb item = Some operation /\
    endpoint = SwaggerSpecParser.parseOperation path verb operation.
Proof.
  cbn [SwaggerSpecParser.parse endpoints]. destruct (api_paths api) as [paths |].
  - rewrite in_flat_map. split.
    + intros ([path [item |]] & Hin & Hendpoint); cbn [fst snd] in Hendpoint.
      * apply in_parsePathItem in Hendpoint as (verb & operation & Hverb & Hlookup & ->).
        exists paths, path, item, verb, operation. auto.
      * destruct Hendpoint.
    + intros (paths' & path & item & verb & operation & [= <-] & Hin & Hverb & Hlookup & ->).
      exists (path, Some item). split; [assumption |]. cbn [fst snd].
      apply in_parsePathItem. eauto.
  - split; [intros [] |].
    intros (paths' & path & item & verb & operation & Hpaths & _). discriminate.
Qed.

Example endpoints_of_storeApi :
  map endpointKey (endpoints (SwaggerSpecParser.parse storeApi))
  = [("/pets", "GET"); ("/pets", "POST"); ("/pets/{petId}", "HEAD")].
Proof. reflexivity. Qed.

Lemma toLower_toUpper_verb (verb : string) :
  In verb SwaggerSpecParser.methods ->
  JS.toLowerCase (JS.toUpperCase verb) = verb /\ hasLower (JS.toUpperCase verb) = false.
Proof.
  unfold SwaggerSpecParser.methods. cbn [In].
  intros H. repeat (destruct H as [<- | H]; [split; reflexivity |]). destruct H.
Qed.

(** X3: every parsed endpoint carries its verb in upper case and a
    non-empty [operationId] (the declared one when it is not empty), so its
    function name is always the camel form of that identifier; and its
    database operation is read off the verb it was declared under. *)
Theorem parsed_endpoint_invariants (path verb : string) (operation : RawOperation) :
  In verb SwaggerSpecParser.methods ->
  let endpoint := SwaggerSpecParser.parseOperation path verb operation in
  hasLower (method endpoint) = false /\
  JS.truthy (operationId endpoint) = true /\
  (forall declared : string,
      raw_operationId operation = Some declared -> JS.truthy declared = true ->
      operationId endpoint = declared) /\
  ApiGenerator.generateFunctionName endpoint = ApiGenerator.toCamelCase (operationId endpoint) /\
  ApiGenerator.generateDbFunctionName endpoint = operationOfVerb verb path.
Proof.
  intros Hverb endpoint.
  destruct (toLower_toUpper_verb verb Hverb) as [Hround Hupper].
  assert (Hid : JS.truthy (operationId endpoint) = true).
  { cbn [endpoint SwaggerSpecParser.parseOperation operationId].
    apply optOrElse_truthy.
    destruct (methods_shape verb Hverb) as (c & rest & -> & _). reflexivity. }
  repeat apply conj.
  - exact Hupper.
  - exact Hid.
  - intros declared Hdeclared Htruthy.
    cbn [endpoint SwaggerSpecParser.parseOperation operationId].
    rewrite Hdeclared. now apply orElse_truthy_id.
  - unfold ApiGenerator.generateFunctionName. now rewrite Hid.
  - unfold ApiGenerator.generateDbFunctionName, operationOfVerb.
    subst endpoint. unfold SwaggerSpecParser.parseOperation.
    cbn -[JS.includes JS.toLowerCase JS.toUpperCase String.eqb].
    now rewrite Hround.
Qed.

Lemma upper_methods_NoDup : List.NoDup (map JS.toUpperCase SwaggerSpecParser.methods).
Proof.
  cbv. repeat (constructor; [cbn; intuition discriminate |]). constructor.
Qed.

Lemma verb_keys_NoDup (path : string) (keep : string -> bool) (verbs : list string) :
  List.NoDup (map JS.toUpperCase verbs) ->
  List.NoDup (map (fun verb => (path, JS.toUpperCase verb)) (List.filter keep verbs)).
Proof.
  induction verbs as [| verb verbs IH]; cbn [map List.filter]; intros Hnodup.
  - constructor.
  - inversion Hnodup as [| ? ? Hnotin Hrest]; subst.
    destruct (keep verb); [| now apply IH].
    cbn [map]. constructor; [| now apply IH].
    intros Hin. apply in_map_iff in Hin as (verb' & [= Heq] & Hin').
    apply List.filter_In in Hin' as [Hin' _].
    apply Hnotin. rewrite <- Heq. now apply in_map.
Qed.

Lemma in_operationKeys (paths : list (string * option PathItem)) (path verb : string) :
  In (path, verb) (operationKeys paths) -> In path (map fst paths).
Proof.
  unfold operationKeys. rewrite in_flat_map.
  intros ([path' [item |]] & Hin & Hkey); cbn [fst snd] in Hkey; [| destruct Hkey].
  apply in_map_iff in Hkey as (verb' & [= <- _] & _).
  apply in_map_iff. now exists (path', Some item).
Qed.

Lemma operationKeys_NoDup (paths : list (string * option PathItem)) :
  List.NoDup (map fst paths) -> List.NoDup (operationKeys paths).
Proof.
  induction paths as [| [path item] paths IH]; cbn [map fst]; intros Hnodup.
  - constructor.
  - inversion Hnodup as [| ? ? Hnotin Hrest]; subst.
    rewrite operationKeys_step. apply List.NoDup_app.
    + destruct item as [item |]; [| constructor].
      apply verb_keys_NoDup, upper_methods_NoDup.
    + now apply IH.
    + intros [path' verb] Hin Hin'.
      apply in_operationKeys in Hin'.
      destruct item as [item |]; [| destruct Hin].
      apply in_map_iff in Hin as (verb' & [= <- _] & _). contradiction.
Qed.

Lemma operationKeys_length (paths : list (string * option PathItem)) :
  length (operationKeys paths) <= 7 * length paths.
Proof.
  induction paths as [| [path item] paths IH]; [cbn; lia |].
  rewrite operationKeys_step, length_app. cbn [length].
  assert (length match item with
                 | Some it => map (fun verb => (path, JS.toUpperCase verb)) (verbsInFixedOrder it)
                 | None => []
                 end <= 7).
  { destruct item as [item |]; [| cbn; lia].
    rewrite length_map. unfold verbsInFixedOrder.
    pose proof (List.filter_length_le (declares item) SwaggerSpecParser.methods) as Hle.
    exact Hle. }
  lia.
Qed.

(** X4: when the paths of the document are pairwise distinct, no two
    parsed endpoints share both path and verb; and a document never yields
    more than seven endpoints per path. *)
Theorem parsed_path_verb_pairs_unique
  (api : RawApi) (paths : list (string * option PathItem)) :
  api_paths api = Some paths ->
  List.NoDup (map fst paths) ->
  List.NoDup (map endpointKey (endpoints (SwaggerSpecParser.parse api))) /\
  length (endpoints (SwaggerSpecParser.parse api)) <= 7 * length paths.
Proof.
  intros Hpaths Hnodup. cbn [SwaggerSpecParser.parse endpoints]. rewrite Hpaths.
  split.
  - rewrite parse_endpoint_keys. now apply operationKeys_NoDup.
  - rewrite <- (length_map endpointKey), parse_endpoint_keys. apply operationKeys_length.
Qed.

Lemma parsed_path_verb_pairs_unique_witness :
  List.NoDup (map endpointKey (endpoints (SwaggerSpecParser.parse storeApi))) /\
  length (endpoints (SwaggerSpecParser.parse storeApi)) <= 14.
Proof.
  apply (parsed_path_verb_pairs_unique storeApi
           [("/pets", Some [("post", bareOperation); ("trace", bareOperation);
                            ("get", bareOperation)]);
            ("/pets/{petId}", Some [("head", bareOperation)])]).
  - reflexivity.
  - cbn. repeat (constructor; [cbn; intuition discriminate |]). constructor.
Defined.

Lemma parsed_endpoint_invariants_witness :
  JS.truthy (operationId (SwaggerSpecParser.parseOperation "/pets/{petId}" "head" bareOperation))
  = true /\
  ApiGenerator.generateDbFunctionName
    (SwaggerSpecParser.parseOperation "/pets/{petId}" "head" bareOperation) = "query".
Proof.
  destruct (parsed_endpoint_invariants "/pets/{petId}" "head" bareOperation)
    as (_ & Hid & _ & _ & Hdb).
  - cbn. tauto.
  - split; [exact Hid | exact Hdb].
Defined.

(** * Further properties of the API generator *)

(** ** Status codes are always numbers *)

Lemma decimalValue_nonneg (s : string) : (0 <= decimalValue s)%Z.
Proof.
  induction s as [| c s IH]; cbn [decimalValue]; [lia |].
  assert (0 <= JS.digitVal c)%Z by (unfold JS.digitVal; lia).
  assert (0 < 10 ^ Z.of_nat (String.length s))%Z by (apply Z.pow_pos_nonneg; lia).
  nia.
Qed.

Lemma decimalValue_leading (c : ascii) (s : string) :
  JS.isDigit c = true ->
  (JS.digitVal c <= decimalValue (leadingDigits (String c s)))%Z.
Proof.
  intros Hc. cbn [leadingDigits]. rewrite Hc. cbn [decimalValue].
  pose proof (decimalValue_nonneg (leadingDigits s)).
  assert (0 <= JS.digitVal c)%Z by (unfold JS.digitVal; lia).
  assert (0 < 10 ^ Z.of_nat (String.length (leadingDigits s)))%Z
    by (apply Z.pow_pos_nonneg; lia).
  nia.
Qed.

Lemma parseInt10_error_code (s : string) :
  JS.startsWith "4" s = true -> JS.parseInt10 s = Some (decimalValue (leadingDigits s)).
Proof.
  destruct s as [| c s]; [discriminate |].
  unfold JS.startsWith. cbn [String.prefix].
  destruct (Ascii.ascii_dec "4" c) as [<- | ?]; [intros _ | discriminate].
  unfold JS.parseInt10. cbn [JS.skipSpaces].
  change (JS.isSpace "4") with false. cbv iota.
  change (Ascii.eqb "4" "-") with false. change (Ascii.eqb "4" "+") with false. cbv iota.
  unfold JS.parseUnsigned. change (JS.isDigit "4") with true. cbv iota.
  rewrite parseDigits_value. f_equal; lia.
Qed.

Lemma starts_with_digit_bound (d : ascii) (s : string) :
  JS.isDigit d = true ->
  JS.startsWith (String d "") s = true ->
  (JS.digitVal d <= decimalValue (leadingDigits s))%Z.
Proof.
  intros Hd. destruct s as [| c s]; [discriminate |].
  unfold JS.startsWith. cbn [String.prefix].
  destruct (Ascii.ascii_dec d c) as [<- | ?]; [intros _ | discriminate].
  now apply decimalValue_leading.
Qed.

(** X5: the error status code is the number read from the first response
    of the endpoint whose status code begins with [4], and 400 when there
    is none;
    the success and the error status codes are always numbers, never [NaN],
    the first at least 2 and the second at least 4. *)
Theorem status_codes_are_numbers (endpoint : SwaggerEndpoint) :
  (forall r : Response,
      firstClientErrorResponse (responses endpoint) r ->
      ApiGenerator.getErrorStatusCode endpoint
      = Some (decimalValue (leadingDigits (statusCode r)))) /\
  (noClientErrorResponse (responses endpoint) ->
   ApiGenerator.getErrorStatusCode endpoint = Some 400%Z) /\
  (exists success error : Z,
      ApiGenerator.getSuccessStatusCode endpoint = Some success /\
      ApiGenerator.getErrorStatusCode endpoint = Some error /\
      (2 <= success)%Z /\ (4 <= error)%Z).
Proof.
  repeat apply conj.
  - intros r (before & after & Hdecl & Hbefore & Hr).
    unfold ApiGenerator.getErrorStatusCode. rewrite Hdecl.
    rewrite (find_first _ (fun x => JS.startsWith "4" (statusCode x)) before after r Hbefore Hr).
    now apply parseInt10_error_code.
  - intros Hnone. unfold ApiGenerator.getErrorStatusCode.
    now rewrite (find_none _ (fun x => JS.startsWith "4" (statusCode x)) _ Hnone).
  - assert (Hs : exists success, ApiGenerator.getSuccessStatusCode endpoint = Some success /\
                                 (2 <= success)%Z).
    { unfold ApiGenerator.getSuccessStatusCode.
      destruct (List.find _ (responses endpoint)) as [r |] eqn:Hfind.
      - apply List.find_some in Hfind as [_ Hr].
        rewrite (parseInt10_success_code _ Hr). eexists. split; [reflexivity |].
        now apply (starts_with_digit_bound "2").
      - destruct (String.eqb _ "post"); [eexists; split; [reflexivity | lia] |].
        destruct (String.eqb _ "delete"); eexists; (split; [reflexivity | lia]). }
    assert (He : exists error, ApiGenerator.getErrorStatusCode endpoint = Some error /\
                               (4 <= error)%Z).
    { unfold ApiGenerator.getErrorStatusCode.
      destruct (List.find _ (responses endpoint)) as [r |] eqn:Hfind.
      - apply List.find_some in Hfind as [_ Hr].
        rewrite (parseInt10_error_code _ Hr). eexists. split; [reflexivity |].
        now apply (starts_with_digit_bound "4").
      - eexists. split; [reflexivity | lia]. }
    destruct Hs as (success & Hs & Hsb), He as (error & He & Heb).
    exists success, error. auto.
Qed.

Lemma status_codes_are_numbers_witness :
  ApiGenerator.getErrorStatusCode updatePetEndpoint = Some 4%Z /\
  ApiGenerator.getErrorStatusCode deleteEndpoint = Some 400%Z.
Proof.
  split.
  - apply (proj1 (status_codes_are_numbers updatePetEndpoint)
             (mkResponse "4XX" "Client error" None)).
    exists [], [mkResponse "202" "Accepted" None]. repeat split. constructor.
  - apply (proj1 (proj2 (status_codes_are_numbers deleteEndpoint))). constructor.
Defined.

(** X6: when no success response is declared, the status text goes with
    the default code: [Created] for POST, [No Content] for DELETE and [OK]
    for any other verb; a declared code other than 200, 201 and 204 gets
    the text [Success]. *)
Theorem default_status_text (endpoint : SwaggerEndpoint) :
  (noSuccessResponse (responses endpoint) ->
   (JS.toLowerCase (method endpoint) = "post" ->
    ApiGenerator.getSuccessStatusText endpoint = "Created") /\
   (JS.toLowerCase (method endpoint) = "delete" ->
    ApiGenerator.getSuccessStatusText endpoint = "No Content") /\
   (JS.toLowerCase (method endpoint) <> "post" ->
    JS.toLowerCase (method endpoint) <> "delete" ->
    ApiGenerator.getSuccessStatusText endpoint = "OK")) /\
  (forall code : Z,
      ApiGenerator.getSuccessStatusCode endpoint = Some code ->
      code <> 200%Z -> code <> 201%Z -> code <> 204%Z ->
      ApiGenerator.getSuccessStatusText endpoint = "Success").
Proof.
  split.
  - intros Hnone. unfold ApiGenerator.getSuccessStatusText, ApiGenerator.getSuccessStatusCode.
    rewrite (find_none _ (fun x => JS.startsWith "2" (statusCode x)) _ Hnone).
    repeat split.
    + now intros ->.
    + now intros ->.
    + intros Hpost Hdelete.
      destruct (String.eqb_spec (JS.toLowerCase (method endpoint)) "post"); [contradiction |].
      destruct (String.eqb_spec (JS.toLowerCase (method endpoint)) "delete"); [contradiction |].
      reflexivity.
  - intros code Hcode H200 H201 H204. unfold ApiGenerator.getSuccessStatusText.
    rewrite Hcode.
    destruct code as [| p | p]; try reflexivity.
    repeat (destruct p as [p | p |]; try reflexivity; try lia).
Qed.

Lemma default_status_text_witness :
  ApiGenerator.getSuccessStatusText deleteEndpoint = "No Content" /\
  ApiGenerator.getSuccessStatusText updatePetEndpoint = "Success".
Proof.
  split.
  - apply (proj1 (default_status_text deleteEndpoint)); [constructor | reflexivity].
  - apply (proj2 (default_status_text updatePetEndpoint) 202%Z); (reflexivity || lia).
Defined.

(** ** The arguments of an emitted function *)

Lemma concat_step (x : string) (l : list string) :
  String.concat "" (x :: l) = x ++ String.concat "" l.
Proof. destruct l; cbn [String.concat]; [now rewrite append_nil_r | reflexivity]. Qed.

Lemma concat_app (l1 l2 : list string) :
  String.concat "" (l1 ++ l2) = String.concat "" l1 ++ String.concat "" l2.
Proof.
  induction l1 as [| x l1 IH]; [reflexivity |].
  rewrite <- app_comm_cons, !concat_step, IH. now rewrite append_assoc.
Qed.

(** The trailing separator, and nothing else, is removed. *)
Lemma dropTrailingComma_snoc (a : string) : ApiGenerator.dropTrailingComma (a ++ ", ") = a.
Proof.
  induction a as [| c a IH]; [reflexivity |].
  change (ApiGenerator.dropTrailingComma (String c a ++ ", "))
    with (if String.eqb (String c (a ++ ", ")) ", " then ""
          else String c (ApiGenerator.dropTrailingComma (a ++ ", "))).
  rewrite IH.
  replace (String.eqb (String c (a ++ ", ")) ", ") with false; [reflexivity |].
  symmetry. apply String.eqb_neq. intros [= _ Ha].
  apply (f_equal String.length) in Ha. rewrite length_append in Ha. cbn in Ha. lia.
Qed.

Lemma concat_separated (items : list string) :
  items <> [] ->
  String.concat "" (map (fun item => item ++ ", ") items) = JS.join ", " items ++ ", ".
Proof.
  induction items as [| x [| y items] IH]; intros Hne; [contradiction | reflexivity |].
  rewrite map_cons, concat_step, IH by discriminate.
  cbn [JS.join]. now rewrite !append_assoc.
Qed.

Lemma dropTrailingComma_join (items : list string) :
  ApiGenerator.dropTrailingComma (String.concat "" (map (fun item => item ++ ", ") items))
  = JS.join ", " items.
Proof.
  destruct items as [| x items]; [reflexivity |].
  rewrite concat_separated by discriminate. apply dropTrailingComma_snoc.
Qed.

(** X7: the arguments passed to the database call are the names logged by
    the emitted function, separated by commas: the path parameters in
    declaration order, then [params] if there is a query parameter, then
    [body] if there is a request body and the verb is not GET; and the
    emitted function declares exactly these names, in this order. *)
Theorem emitted_arguments_agree (endpoint : SwaggerEndpoint) :
  ApiGenerator.generateDbFunctionParams endpoint = ApiGenerator.loggedArguments endpoint /\
  ApiGenerator.parameterList endpoint
  = JS.join ", " (map (fun argument => fst argument ++ snd argument) (typedArguments endpoint)) /\
  map fst (typedArguments endpoint) = ApiGenerator.loggedArgumentNames endpoint.
Proof.
  repeat apply conj.
  - unfold ApiGenerator.loggedArguments. rewrite <- dropTrailingComma_join.
    unfold ApiGenerator.generateDbFunctionParams, ApiGenerator.loggedArgumentNames.
    fold (ApiGenerator.hasRequestBody endpoint).
    rewrite !map_app, !concat_app, map_map.
    destruct (negb _), (ApiGenerator.hasRequestBody endpoint);
      cbn [map String.concat String.append]; now rewrite ?append_assoc, ?append_nil_r.
  - rewrite <- dropTrailingComma_join.
    unfold ApiGenerator.parameterList, typedArguments.
    rewrite !map_app, !concat_app, !map_map.
    assert (Hpath : forall params,
               String.concat ""
                 (map (fun param =>
                         param_name param ++ ": " ++
                         ApiGenerator.mapSchemaToTypeScript (param_schema param) ++ ", ") params)
               = String.concat ""
                   (map (fun param => (fst (pathArgument param) ++ snd (pathArgument param)) ++ ", ")
                        params)).
    { intros params. f_equal. apply map_ext. intros param. cbn [pathArgument fst snd].
      now rewrite !append_assoc. }
    rewrite Hpath.
    destruct (negb _), (ApiGenerator.hasRequestBody endpoint);
      cbn [map String.concat String.append queryArgument bodyArgument fst snd];
      rewrite ?append_assoc, ?append_nil_r; cbn [String.append]; reflexivity.
  - unfold typedArguments, ApiGenerator.loggedArgumentNames.
    rewrite !map_app, map_map.
    destruct (negb _), (ApiGenerator.hasRequestBody endpoint); reflexivity.
Qed.

Example arguments_of_updatePet :
  ApiGenerator.parameterList updatePetEndpoint
  = "petId: string, params?: { dryRun?: boolean;  }, body: any" /\
  ApiGenerator.generateDbFunctionParams updatePetEndpoint = "petId, params, body".
Proof. split; reflexivity. Qed.

(** * Further properties of the type generator *)

(** ** The shape of canonical names *)

Lemma toUpperChar_not_lower (c : ascii) : JS.isLower (JS.toUpperChar c) = false.
Proof. ascii_cases c; reflexivity. Qed.

Lemma not_word_not_lower (c : ascii) : JS.isWord c = false -> JS.isLower c = false.
Proof. ascii_cases c; (reflexivity || discriminate). Qed.

Lemma capitalizeWords_head (s : string) :
  match JS.capitalizeWords s with
  | EmptyString => s = ""
  | String c _ => JS.isLower c = false
  end.
Proof.
  destruct s as [| c rest]; [reflexivity |].
  unfold JS.capitalizeWords. destruct (JS.isWord c) eqn:Hc.
  - apply toUpperChar_not_lower.
  - cbn [JS.capitalizeAfterSep]. destruct rest as [| c' rest'].
    + now apply not_word_not_lower.
    + destruct ((Ascii.eqb c "-" || Ascii.eqb c "_") && JS.isWord c').
      * apply toUpperChar_not_lower.
      * now apply not_word_not_lower.
Qed.

Lemma capitalizeAfterSep_step (d c : ascii) (rest : string) :
  JS.capitalizeAfterSep (String d (String c rest))
  = if (Ascii.eqb d "-" || Ascii.eqb d "_") && JS.isWord c
    then String (JS.toUpperChar c) (JS.capitalizeAfterSep rest)
    else String d (JS.capitalizeAfterSep (String c rest)).
Proof. reflexivity. Qed.

Lemma capitalizeAfterSep_length (n : nat) :
  forall s : string,
    String.length s <= n -> String.length (JS.capitalizeAfterSep s) <= String.length s.
Proof.
  induction n as [| n IH]; intros [| d [| c rest]] Hn; cbn [String.length] in *;
    try lia; try (cbn; lia).
  rewrite capitalizeAfterSep_step.
  destruct ((Ascii.eqb d "-" || Ascii.eqb d "_") && JS.isWord c); cbn [String.length].
  - assert (String.length (JS.capitalizeAfterSep rest) <= String.length rest) by (apply IH; lia).
    lia.
  - pose proof (IH (String c rest)) as Hrest. cbn [String.length] in Hrest.
    assert (String.length (JS.capitalizeAfterSep (String c rest)) <= S (String.length rest))
      by (apply Hrest; lia).
    lia.
Qed.

Lemma capitalizeWords_length (s : string) :
  String.length (JS.capitalizeWords s) <= String.length s.
Proof.
  destruct s as [| c rest]; [reflexivity |].
  unfold JS.capitalizeWords. destruct (JS.isWord c).
  - cbn [String.length].
    pose proof (capitalizeAfterSep_length _ rest (le_n _)). lia.
  - apply (capitalizeAfterSep_length _ _ (le_n _)).
Qed.

(** X8: a canonical (Pascal case) name is never longer than the name it
    comes from, is empty only for the empty name, and never begins with a
    lower-case letter, so it is never the name of a primitive type; the
    camel form of a name has the same length and never begins with an
    upper-case letter. *)
Theorem canonical_name_shape (str : string) :
  String.length (TypeGenerator.toPascalCase str) <= String.length str /\
  match TypeGenerator.toPascalCase str with
  | EmptyString => str = ""
  | String c _ => JS.isLower c = false
  end /\
  ~ In (TypeGenerator.toPascalCase str) primitiveTypeNames /\
  String.length (ApiGenerator.toCamelCase str) = String.length (ApiGenerator.toPascalCase str) /\
  match ApiGenerator.toCamelCase str with
  | EmptyString => str = ""
  | String c _ => JS.isUpper c = false
  end.
Proof.
  pose proof (capitalizeWords_head str) as Hhead.
  unfold TypeGenerator.toPascalCase, ApiGenerator.toCamelCase, ApiGenerator.toPascalCase.
  repeat apply conj.
  - apply capitalizeWords_length.
  - exact Hhead.
  - intros Hin. destruct (JS.capitalizeWords str) as [| c rest]; cbn in Hin.
    + intuition discriminate.
    + destruct Hin as [H | [H | [H | [H | [H | []]]]]];
        injection H as <- _; discriminate.
  - destruct (JS.capitalizeWords str); reflexivity.
  - destruct (JS.capitalizeWords str) as [| c rest]; [exact Hhead |].
    cbn. apply toLowerChar_not_upper.
Qed.

(** ** Types that resolve to nothing, and named aliases *)

Lemma capitalizeWords_nonempty (s : string) : JS.truthy s = true -> JS.capitalizeWords s <> "".
Proof.
  intros Hs Hempty. pose proof (capitalizeWords_head s) as Hhead.
  rewrite Hempty in Hhead. subst s. discriminate.
Qed.

Lemma append_nonempty_r (a b : string) : JS.truthy b = true -> a ++ b <> "".
Proof.
  intros Hb Heq. apply (f_equal String.length) in Heq. rewrite length_append in Heq.
  destruct b; [discriminate |]. cbn in Heq. lia.
Qed.

Lemma mapSwaggerType_nonempty (swaggerType : string) :
  TypeGenerator.mapSwaggerTypeToTypeScript swaggerType <> "".
Proof.
  unfold TypeGenerator.mapSwaggerTypeToTypeScript.
  repeat (destruct (String.eqb swaggerType _); [discriminate |]). discriminate.
Qed.

(** X9: the resolved type of a schema is the empty text only when the
    schema is an enumeration whose values render to nothing (an empty
    [enum] list, for one); references, arrays, objects and primitives
    always resolve to a non-empty type. *)
Theorem resolved_type_empty_iff (schema : Schema) :
  TypeGenerator.generateTypeFromSchema schema = "" <->
  truthyRef schema = None /\
  (if String.eqb (type schema) "array" then items schema else None) = None /\
  exists values : list EnumValue, enum schema = Some values /\ renderEnum values = "".
Proof.
  rewrite generateTypeFromSchema_eq.
  destruct (truthyRef schema) as [r |].
  { split; [| intros [[=] _]].
    intros H. exfalso. revert H. apply capitalizeWords_nonempty.
    unfold refTarget. now apply optOrElse_truthy. }
  destruct (if String.eqb (type schema) "array" then items schema else None) as [it |].
  { split; [| intros (_ & [=] & _)].
    intros H. exfalso. revert H. now apply append_nonempty_r. }
  destruct (enum schema) as [values |].
  { split; [intros H; eauto | now intros (_ & _ & values' & [= <-] & H)]. }
  split; [| intros (_ & _ & values & [=] & _)].
  intros H. exfalso. revert H.
  destruct (if String.eqb (type schema) "object" then properties schema else None).
  - discriminate.
  - apply mapSwaggerType_nonempty.
Qed.

Example empty_enum_resolves_to_nothing :
  TypeGenerator.generateTypeFromSchema emptyEnumSchema = "" /\
  TypeGenerator.generateInterface "status" emptyEnumSchema = "export type Status = ;".
Proof. split; reflexivity. Qed.

(** X10: a named schema that is not an object is declared as an alias of
    exactly the type that resolves for it inline, provided its reference,
    if it has one, does not end in a slash. *)
Theorem named_alias_matches_inline (name : string) (schema : Schema) :
  type schema <> "object" ->
  properties schema = None ->
  (forall r : string, truthyRef schema = Some r -> refTarget r name = refTarget r "unknown") ->
  TypeGenerator.generateInterface name schema
  = "export type " ++ TypeGenerator.toPascalCase name ++ " = " ++
    TypeGenerator.generateTypeFromSchema schema ++ ";".
Proof.
  intros Htype Hprops Href.
  unfold TypeGenerator.generateInterface. rewrite generateTypeFromSchema_eq.
  destruct (truthyRef schema) as [r |]; [now rewrite (Href r eq_refl) |].
  destruct (if String.eqb (type schema) "array" then items schema else None) as [it |].
  { now rewrite !append_assoc. }
  destruct (enum schema) as [values |]; [reflexivity |].
  rewrite Hprops. apply String.eqb_neq in Htype. rewrite Htype.
  reflexivity.
Qed.

Lemma named_alias_matches_inline_witness :
  TypeGenerator.generateInterface "pet-list" petListSchema = "export type PetList = Pet[];".
Proof.
  rewrite (named_alias_matches_inline "pet-list" petListSchema).
  - reflexivity.
  - discriminate.
  - reflexivity.
  - discriminate.
Defined.

(** * Further properties of the database generator *)

(** ** Groups partition the endpoints *)

Lemma grouped_lookup (endpoints : list SwaggerEndpoint) (key : string) :
  forall groups : list (string * list SwaggerEndpoint),
    lookupKey key (fold_left groupStep endpoints groups)
    = extendGroup (lookupKey key groups) (membersOf key endpoints).
Proof.
  induction endpoints as [| e endpoints IH]; intros groups; cbn [fold_left].
  - cbn. destruct (lookupKey key groups); cbn; [now rewrite app_nil_r | reflexivity].
  - rewrite IH. unfold groupStep, membersOf. cbn [List.filter].
    destruct (String.eqb_spec (controllerKey e) key) as [-> | Hne].
    + rewrite pushToGroup_lookup_same.
      destruct (lookupKey key groups); cbn; now rewrite <- ?app_assoc.
    + now rewrite pushToGroup_lookup_other.
Qed.

Lemma setAdd_NoDup (key : string) (controllers : list string) :
  List.NoDup controllers -> List.NoDup (setAdd key controllers).
Proof.
  intros Hnodup. unfold setAdd. destruct (existsb _ _) eqn:Hexists; [assumption |].
  apply List.NoDup_app; [assumption | repeat constructor; intros [] |].
  intros x Hin [-> | []].
  assert (existsb (String.eqb x) controllers = true); [| congruence].
  apply existsb_exists. exists x. split; [assumption | apply String.eqb_refl].
Qed.

Lemma setAdd_In (key x : string) (controllers : list string) :
  In x (setAdd key controllers) <-> x = key \/ In x controllers.
Proof.
  unfold setAdd. destruct (existsb _ _) eqn:Hexists.
  - split; [now right |]. intros [-> | Hin]; [| assumption].
    apply existsb_exists in Hexists as (y & Hin & Heq).
    apply String.eqb_eq in Heq. now subst.
  - rewrite in_app_iff. cbn. intuition.
Qed.

Lemma controllers_fold (endpoints : list SwaggerEndpoint) :
  forall controllers : list string,
    let result :=
      fold_left (fun controllers endpoint => setAdd (controllerKey endpoint) controllers)
                endpoints controllers in
    (List.NoDup controllers -> List.NoDup result) /\
    (forall x, In x result <->
               In x controllers \/ exists e, In e endpoints /\ controllerKey e = x).
Proof.
  induction endpoints as [| e endpoints IH]; intros controllers; cbn [fold_left].
  - split; [auto |]. intros x. split; [auto |]. intros [H | (e & [] & _)]. exact H.
  - destruct (IH (setAdd (controllerKey e) controllers)) as [Hnodup Hin].
    split.
    + intros H. now apply Hnodup, setAdd_NoDup.
    + intros x. rewrite Hin, setAdd_In. split.
      * intros [[-> | H] | (e' & He' & Hkey)]; [right; exists e | now left | right; exists e'];
          cbn; auto.
      * intros [H | (e' & [<- | He'] & Hkey)]; [left; now right | left; left; now symmetry |].
        right. now exists e'.
Qed.

Lemma controllers_length (endpoints : list SwaggerEndpoint) :
  forall controllers : list string,
    length (fold_left (fun controllers endpoint => setAdd (controllerKey endpoint) controllers)
                      endpoints controllers)
    <= length endpoints + length controllers.
Proof.
  induction endpoints as [| e endpoints IH]; intros controllers; cbn [fold_left length]; [lia |].
  specialize (IH (setAdd (controllerKey e) controllers)).
  assert (length (setAdd (controllerKey e) controllers) <= S (length controllers)).
  { unfold setAdd. destruct (existsb _ _); [lia |]. rewrite length_app. cbn. lia. }
  lia.
Qed.

Lemma lookupKey_of_In (A : Type) (entries : list (string * A)) (key : string) (value : A) :
  List.NoDup (map fst entries) -> In (key, value) entries -> lookupKey key entries = Some value.
Proof.
  induction entries as [| [k v] entries IH]; cbn [map fst lookupKey]; intros Hnodup Hin.
  - destruct Hin.
  - inversion Hnodup as [| ? ? Hnotin Hrest]; subst.
    destruct Hin as [[= -> ->] | Hin].
    + now rewrite String.eqb_refl.
    + destruct (String.eqb_spec k key) as [-> | _]; [| now apply IH].
      exfalso. apply Hnotin. apply in_map_iff. now exists (key, value).
Qed.

Lemma list_sum_step (A : Type) (f : A -> nat) (x : A) (l : list A) :
  list_sum (map f (x :: l)) = f x + list_sum (map f l).
Proof. reflexivity. Qed.

Lemma pushToGroup_total (key : string) (e : SwaggerEndpoint)
  (groups : list (string * list SwaggerEndpoint)) :
  list_sum (map (fun group => length (snd group)) (pushToGroup key e groups))
  = S (list_sum (map (fun group => length (snd group)) groups)).
Proof.
  induction groups as [| [k members] groups IH]; [reflexivity |].
  cbn [pushToGroup]. destruct (String.eqb k key).
  - rewrite !list_sum_step. cbn [snd]. rewrite length_app. cbn [length]. lia.
  - rewrite !list_sum_step, IH. lia.
Qed.

Lemma grouped_total (endpoints : list SwaggerEndpoint) :
  forall groups : list (string * list SwaggerEndpoint),
    list_sum (map (fun group => length (snd group)) (fold_left groupStep endpoints groups))
    = length endpoints + list_sum (map (fun group => length (snd group)) groups).
Proof.
  induction endpoints as [| e endpoints IH]; intros groups; cbn [fold_left length]; [reflexivity |].
  rewrite IH. unfold groupStep. rewrite pushToGroup_total. lia.
Qed.

(** A grouping that returns has pushed every endpoint. *)
Lemma grouping_result (endpoints : list SwaggerEndpoint) :
  forall own groups : list (string * list SwaggerEndpoint),
    fold_left pushStep endpoints (Some own) = Some groups ->
    groups = fold_left groupStep endpoints own.
Proof.
  induction endpoints as [| e endpoints IH]; intros own groups Hreturns.
  - now injection Hreturns as <-.
  - cbn [fold_left pushStep] in Hreturns. unfold pushEndpoint in Hreturns.
    destruct (lookupKey (controllerKey e) own); [now apply IH |].
    destruct (JS.inherited (controllerKey e)); [| now apply IH].
    rewrite pushStep_thrown in Hreturns. discriminate.
Qed.

(** X11: unless a storage-group key is a name that [Object.prototype]
    provides, grouping splits the endpoints into groups without losing,
    repeating or reordering any: the group under a key holds exactly the
    endpoints with that storage-group key, in document order; every key
    occurs once; no group is empty; and the sizes of the groups add up to
    the number of endpoints.  With such a key among the endpoints the
    grouping raises a [TypeError] instead. *)
Theorem groups_partition_endpoints (endpoints : list SwaggerEndpoint) :
  (Forall (fun e => JS.inherited (controllerKey e) = false) endpoints ->
   exists groups : list (string * list SwaggerEndpoint),
     DbGenerator.groupEndpointsByController endpoints = Some groups /\
     (forall key : string,
         lookupKey key groups
         = match membersOf key endpoints with
           | [] => None
           | members => Some members
           end) /\
     List.NoDup (map fst groups) /\
     (forall (key : string) (members : list SwaggerEndpoint),
         In (key, members) (JS.entries groups) ->
         members = membersOf key endpoints /\ members <> []) /\
     list_sum (map (fun group => length (snd group)) groups) = length endpoints) /\
  (Exists (fun e => JS.inherited (controllerKey e) = true) endpoints ->
   DbGenerator.groupEndpointsByController endpoints = None).
Proof.
  split.
  - intros Hsafe. exists (fold_left groupStep endpoints []).
    set (groups := fold_left groupStep endpoints []).
    assert (Hlookup : forall key, lookupKey key groups
                                  = match membersOf key endpoints with
                                    | [] => None
                                    | members => Some members
                                    end).
    { intros key. unfold groups. rewrite (grouped_lookup endpoints key []).
      now destruct (membersOf key endpoints). }
    assert (Hnodup : List.NoDup (map fst groups)).
    { unfold groups. rewrite (grouped_keys endpoints []).
      apply (controllers_fold endpoints []). constructor. }
    split; [exact (grouping_returns endpoints [] Hsafe) |].
    split; [exact Hlookup |]. split; [exact Hnodup |]. split.
    + intros key members Hin. apply (proj1 (in_entries _ _ _)) in Hin.
      pose proof (lookupKey_of_In _ _ _ _ Hnodup Hin) as Hfound.
      rewrite Hlookup in Hfound.
      destruct (membersOf key endpoints); [discriminate |].
      injection Hfound as <-. split; [reflexivity | discriminate].
    + unfold groups. rewrite (grouped_total endpoints []). cbn. lia.
  - intros Hbad. exact (grouping_throws endpoints [] (@List.Forall_nil _ _) Hbad).
Qed.

(** X12: the list of store names holds each storage-group key of the
    document once, and nothing else. *)
Theorem unique_controllers_are_the_keys (parsedSwagger : ParsedSwagger) :
  List.NoDup (DbGenerator.getUniqueControllers parsedSwagger) /\
  (forall controller : string,
      In controller (DbGenerator.getUniqueControllers parsedSwagger) <->
      exists endpoint : SwaggerEndpoint,
        In endpoint (endpoints parsedSwagger) /\ controllerKey endpoint = controller) /\
  length (DbGenerator.getUniqueControllers parsedSwagger) <= length (endpoints parsedSwagger).
Proof.
  destruct (controllers_fold (endpoints parsedSwagger) []) as [Hnodup Hin].
  repeat apply conj.
  - apply Hnodup. constructor.
  - intros controller. unfold DbGenerator.getUniqueControllers.
    fold (controllerKey) in *. rewrite (Hin controller). cbn. intuition.
  - pose proof (controllers_length (endpoints parsedSwagger) []) as Hle.
    cbn [length] in Hle. rewrite Nat.add_0_r in Hle. exact Hle.
Qed.

(** ** The files of the database layer *)

(** The order of [Object.entries] is decided by the keys alone. *)
Lemma insertEntry_keys (A B : Type) (entry : string * A) (sorted : list (string * A))
  (value : A -> B) :
  JS.insertEntry (fst entry, value (snd entry))
    (map (fun e => (fst e, value (snd e))) sorted)
  = map (fun e => (fst e, value (snd e))) (JS.insertEntry entry sorted).
Proof.
  induction sorted as [| e rest IH]; [reflexivity |].
  cbn [map JS.insertEntry fst].
  destruct (JS.indexValue (fst entry) <=? JS.indexValue (fst e))%Z; [reflexivity |].
  cbn [map]. now rewrite IH.
Qed.

Lemma filter_keys (A B : Type) (keep : string -> bool) (own : list (string * A))
  (value : A -> B) :
  List.filter (fun entry => keep (fst entry)) (map (fun e => (fst e, value (snd e))) own)
  = map (fun e => (fst e, value (snd e))) (List.filter (fun entry => keep (fst entry)) own).
Proof.
  induction own as [| e rest IH]; [reflexivity |].
  cbn [map List.filter fst]. destruct (keep (fst e)); cbn [map]; now rewrite IH.
Qed.

Lemma entries_keys (A B : Type) (own : list (string * A)) (value : A -> B) :
  JS.entries (map (fun e => (fst e, value (snd e))) own)
  = map (fun e => (fst e, value (snd e))) (JS.entries own).
Proof.
  unfold JS.entries. rewrite map_app.
  rewrite (filter_keys _ _ JS.isArrayIndex), (filter_keys _ _ (fun key => negb (JS.isArrayIndex key))).
  f_equal.
  induction (List.filter (fun entry : string * A => JS.isArrayIndex (fst entry)) own)
    as [| e rest IH]; [reflexivity |].
  change (JS.ascending (map (fun e0 : string * A => (fst e0, value (snd e0))) (e :: rest)))
    with (JS.insertEntry (fst e, value (snd e))
            (JS.ascending (map (fun e0 : string * A => (fst e0, value (snd e0))) rest))).
  rewrite IH. apply insertEntry_keys.
Qed.

(** X13: unless a storage-group key is a name that [Object.prototype]
    provides, the database generator writes [db-setup.ts] and then one
    file per storage group, named by the key, in the order in which
    [Object.entries] yields the keys: the store names that are array
    indices first, in ascending order, then the others in the order of the
    list of store names; with no array index among the store names the
    files follow that list.  With such a key the run writes [db-setup.ts]
    alone and ends with a [TypeError]. *)
Theorem db_files_follow_entries_order
  (SeedRecord : Type) (stringify : list SeedRecord -> string)
  (setup : string -> string) (crud : string -> string -> string)
  (parsedSwagger : ParsedSwagger) (seedData : option (gmap string (list SeedRecord))) :
  let run := DbGenerator.generate SeedRecord stringify setup crud parsedSwagger seedData in
  let controllers := DbGenerator.getUniqueControllers parsedSwagger in
  (Forall (fun e => JS.inherited (controllerKey e) = false) (endpoints parsedSwagger) ->
   snd run = DbGenerator.Returned /\
   map fst (fst run)
   = "db-setup.ts" ::
     map (fun entry => fst entry ++ "-db.ts")
         (JS.entries (map (fun controller => (controller, tt)) controllers)) /\
   length (fst run) = S (length controllers) /\
   (Forall (fun controller => JS.isArrayIndex controller = false) controllers ->
    map fst (fst run)
    = "db-setup.ts" :: map (fun controller => controller ++ "-db.ts") controllers)) /\
  (Exists (fun e => JS.inherited (controllerKey e) = true) (endpoints parsedSwagger) ->
   run = ([("db-setup.ts", DbGenerator.generateDbSetup setup parsedSwagger)],
          DbGenerator.ThrewTypeError)).
Proof.
  intros run controllers. split.
  - intros Hsafe.
    pose proof (grouping_returns (endpoints parsedSwagger) [] Hsafe) as Hreturns.
    set (groups := fold_left groupStep (endpoints parsedSwagger) []) in *.
    assert (Hkeys : map fst groups = controllers).
    { apply (grouped_keys (endpoints parsedSwagger) []). }
    assert (Hrun : run
                   = (("db-setup.ts", DbGenerator.generateDbSetup setup parsedSwagger) ::
                      map (fun group =>
                             (fst group ++ "-db.ts",
                              DbGenerator.generateDbFile SeedRecord stringify crud (fst group)
                                (snd group) parsedSwagger
                                (DbGenerator.controllerSeedData SeedRecord seedData (fst group))))
                          (JS.entries groups),
                      DbGenerator.Returned)).
    { unfold run, DbGenerator.generate.
      change (DbGenerator.groupEndpointsByController (endpoints parsedSwagger))
        with (fold_left pushStep (endpoints parsedSwagger) (Some [])).
      now rewrite Hreturns. }
    assert (Hnames : map fst (fst run)
                     = "db-setup.ts" ::
                       map (fun entry => fst entry ++ "-db.ts")
                           (JS.entries (map (fun controller => (controller, tt)) controllers))).
    { rewrite Hrun. cbn [fst map]. f_equal. rewrite map_map. cbn [fst].
      rewrite <- Hkeys, map_map.
      rewrite (entries_keys _ _ groups (fun _ => tt)), map_map. reflexivity. }
    split; [now rewrite Hrun |]. split; [exact Hnames |]. split.
    + rewrite <- (length_map fst), Hnames. cbn [length]. rewrite length_map.
      rewrite (Permutation_length (entries_perm _ _)). now rewrite length_map.
    + intros Hplain. rewrite Hnames. f_equal.
      rewrite entries_without_indices, map_map; [reflexivity |].
      apply List.Forall_forall. intros entry Hin.
      apply in_map_iff in Hin as (controller & <- & Hin).
      rewrite List.Forall_forall in Hplain. now apply Hplain.
  - intros Hbad.
    pose proof (grouping_throws (endpoints parsedSwagger) [] (@List.Forall_nil _ _) Hbad)
      as Hthrows.
    unfold run, DbGenerator.generate.
    change (DbGenerator.groupEndpointsByController (endpoints parsedSwagger))
      with (fold_left pushStep (endpoints parsedSwagger) (Some [])).
    now rewrite Hthrows.
Qed.

(** X14: seed records filed under a key that is no storage-group key of
    the document, in particular under any key with an upper-case letter,
    are never emitted: the generated files are those obtained without that
    entry. *)
Theorem seed_under_foreign_key_unused
  (SeedRecord : Type) (stringify : list SeedRecord -> string)
  (setup : string -> string) (crud : string -> string -> string)
  (parsedSwagger : ParsedSwagger) (seedData : gmap string (list SeedRecord)) (key : string) :
  hasUpper key = true \/ ~ In key (DbGenerator.getUniqueControllers parsedSwagger) ->
  DbGenerator.generate SeedRecord stringify setup crud parsedSwagger (Some seedData)
  = DbGenerator.generate SeedRecord stringify setup crud parsedSwagger
      (Some (delete key seedData)).
Proof.
  intros Hkey.
  assert (Hforeign : ~ In key (DbGenerator.getUniqueControllers parsedSwagger)).
  { destruct Hkey as [Hupper | H]; [| exact H].
    intros Hin.
    pose proof (controllers_lowercase (endpoints parsedSwagger) [] (List.Forall_nil _)) as Hall.
    rewrite List.Forall_forall in Hall. specialize (Hall key Hin). congruence. }
  unfold DbGenerator.generate.
  change (DbGenerator.groupEndpointsByController (endpoints parsedSwagger))
    with (fold_left pushStep (endpoints parsedSwagger) (Some [])).
  destruct (fold_left pushStep (endpoints parsedSwagger) (Some [])) as [groups |] eqn:Hgroups;
    [| reflexivity].
  apply grouping_result in Hgroups.
  do 2 f_equal. apply map_ext_in.
  intros [controller members] Hin. cbn [fst snd]. do 2 f_equal.
  cbn [DbGenerator.controllerSeedData].
  rewrite lookup_delete_ne; [reflexivity |].
  intros <-. apply Hforeign.
  assert (Hkeys : map fst groups = DbGenerator.getUniqueControllers parsedSwagger).
  { rewrite Hgroups. apply (grouped_keys (endpoints parsedSwagger) []). }
  rewrite <- Hkeys. apply in_map_iff. exists (key, members).
  split; [reflexivity |]. now apply (proj1 (in_entries _ _ _)).
Qed.

Lemma seed_under_foreign_key_unused_witness :
  DbGenerator.generate nat (fun _ => "[...]") (fun names => names) (fun _ _ => "")
    mixedCaseDocument (Some capitalSeed)
  = DbGenerator.generate nat (fun _ => "[...]") (fun names => names) (fun _ _ => "")
      mixedCaseDocument (Some (delete "Users" capitalSeed)).
Proof.
  apply (seed_under_foreign_key_unused nat (fun _ => "[...]") (fun names => names)
           (fun _ _ => "") mixedCaseDocument capitalSeed "Users").
  left. reflexivity.
Defined.

(** * Properties of the seed file loader *)

Section SeedValidation.

Variable SeedRecord : Type.

Lemma in_keys (key : string) (value : Commands.SeedValue SeedRecord)
  (entries : list (string * Commands.SeedValue SeedRecord)) :
  In (key, value) entries -> In key (map fst entries).
Proof. intros Hin. apply in_map_iff. now exists (key, value). Qed.

Lemma validate_fold (entries : list (string * Commands.SeedValue SeedRecord)) :
  forall (validated : Commands.ValidatedSeed SeedRecord) (warnings : list string),
    List.NoDup (map fst entries) ->
    (forall key, In key (map fst entries) -> Commands.seed_own _ validated !! key = None) ->
    (In "__proto__" (map fst entries) -> Commands.seed_prototype _ validated = None) ->
    let result :=
      fold_left
        (fun state entry =>
           match snd entry with
           | Commands.SeedArray _ records =>
               (Commands.assignSeed _ (fst entry) records (fst state), snd state)
           | Commands.SeedOther _ =>
               (fst state, (snd state ++ [Commands.notArrayWarning (fst entry)])%list)
           end)
        entries (validated, warnings) in
    (forall key records,
        Commands.seed_own _ (fst result) !! key = Some records <->
        (key <> "__proto__" /\ In (key, Commands.SeedArray SeedRecord records) entries) \/
        Commands.seed_own _ validated !! key = Some records) /\
    (forall records,
        Commands.seed_prototype _ (fst result) = Some records <->
        In ("__proto__", Commands.SeedArray SeedRecord records) entries \/
        Commands.seed_prototype _ validated = Some records) /\
    snd result = (warnings ++ map Commands.notArrayWarning (rejectedKeys entries))%list.
Proof.
  induction entries as [| [k value] entries IH]; intros validated warnings Hnodup Hfresh Hproto;
    cbn [fold_left].
  - cbn. split; [intuition | split; [intuition | now rewrite app_nil_r]].
  - cbn [map fst] in Hnodup, Hfresh, Hproto.
    inversion Hnodup as [| ? ? Hnotin Hrest]; subst.
    destruct value as [records0 |]; cbn [snd fst].
    + unfold Commands.assignSeed.
      destruct (String.eqb_spec k "__proto__") as [-> | Hk].
      * destruct (IH (Commands.mkValidatedSeed _ (Commands.seed_own _ validated) (Some records0))
                    warnings Hrest) as (Hown & Hprototype & Hwarn).
        { intros key Hin. cbn. apply Hfresh. now right. }
        { intros Hin. contradiction. }
        cbn [Commands.seed_own Commands.seed_prototype] in Hown, Hprototype.
        split; [| split; [| exact Hwarn]].
        -- intros key records. rewrite Hown. cbn [In]. split.
           ++ intros [[Hkey Hin] | H]; auto.
           ++ intros [[Hkey [[= <- _] | Hin]] | H]; [congruence | auto | auto].
        -- intros records. rewrite Hprototype. cbn [In].
           rewrite (Hproto (or_introl eq_refl)). split.
           ++ intros [Hin | [= ->]]; auto.
           ++ intros [[[= ->] | Hin] | [=]]; auto.
      * destruct (IH (Commands.mkValidatedSeed _
                        (<[k := records0]> (Commands.seed_own _ validated))
                        (Commands.seed_prototype _ validated))
                    warnings Hrest) as (Hown & Hprototype & Hwarn).
        { intros key Hin. cbn. rewrite lookup_insert_ne by (intros ->; contradiction).
          apply Hfresh. now right. }
        { intros Hin. cbn. apply Hproto. now right. }
        cbn [Commands.seed_own Commands.seed_prototype] in Hown, Hprototype.
        split; [| split; [| exact Hwarn]].
        -- intros key records. rewrite Hown. cbn [In].
           destruct (decide (k = key)) as [<- | Hne].
           ++ rewrite lookup_insert_eq, (Hfresh k (or_introl eq_refl)). split.
              ** intros [[_ Hin] | [= ->]]; [| left; split; [exact Hk | now left]].
                 exfalso. apply Hnotin. exact (in_keys _ _ _ Hin).
              ** intros [[_ [[= ->] | Hin]] | [=]]; [now right |].
                 exfalso. apply Hnotin. exact (in_keys _ _ _ Hin).
           ++ rewrite lookup_insert_ne by assumption. split.
              ** intros [[Hkey Hin] | H]; auto.
              ** intros [[Hkey [[= <- _] | Hin]] | H]; [congruence | auto | auto].
        -- intros records. rewrite Hprototype. cbn [In]. split.
           ++ intros [Hin | H]; auto.
           ++ intros [[[= -> _] | Hin] | H]; [congruence | auto | auto].
    + destruct (IH validated (warnings ++ [Commands.notArrayWarning k])%list Hrest)
        as (Hown & Hprototype & Hwarn).
      { intros key Hin. apply Hfresh. now right. }
      { intros Hin. apply Hproto. now right. }
      split; [| split].
      * intros key records. rewrite Hown. cbn [In]. split.
        -- intros [[Hkey Hin] | H]; auto.
        -- intros [[Hkey [[=] | Hin]] | H]; auto.
      * intros records. rewrite Hprototype. cbn [In]. split.
        -- intros [Hin | H]; auto.
        -- intros [[[=] | Hin] | H]; auto.
      * rewrite Hwarn. unfold rejectedKeys. cbn [List.filter snd map fst].
        now rewrite <- app_assoc.
Qed.

End SeedValidation.

Lemma combine_fst (A B : Type) (l : list A) :
  forall l' : list B, length l = length l' -> map fst (combine l l') = l.
Proof.
  induction l as [| x l IH]; intros [| y l'] Hlen; try discriminate; [reflexivity |].
  cbn [combine map fst]. f_equal. apply IH. now injection Hlen.
Qed.

Lemma combine_snd (A B : Type) (l : list A) :
  forall l' : list B, length l = length l' -> map snd (combine l l') = l'.
Proof.
  induction l as [| x l IH]; intros [| y l'] Hlen; try discriminate; [reflexivity |].
  cbn [combine map snd]. f_equal. apply IH. now injection Hlen.
Qed.

(** X15: seed data is loaded only when a seed path is given, the file
    exists and holds an object or an array.  Its entries are taken in the
    order of [Object.entries] (array indices ascending, then the other
    keys as the file declares them; an array is entered under the numerals
    of its indices).  The loaded data then holds, each under its own key,
    exactly the entries whose value is an array and whose key is not
    [__proto__]; an array under [__proto__] becomes the prototype of the
    loaded object instead; and one warning is printed for every other
    entry, in that order. *)
Theorem seed_file_validation (SeedRecord : Type) :
  (forall (seed : option string) (pathExists : bool)
          (readJson : string + Commands.SeedContent SeedRecord),
      is_Some (fst (Commands.loadSeedData SeedRecord seed pathExists readJson)) <->
      exists (seedPath : string) (seedContent : Commands.SeedContent SeedRecord),
        seed = Some seedPath /\ JS.truthy seedPath = true /\ pathExists = true /\
        readJson = inr seedContent /\ seedContent <> Commands.SeedNotObject SeedRecord) /\
  (forall (seedPath : string) (seedContent : Commands.SeedContent SeedRecord),
      JS.truthy seedPath = true ->
      seedContent <> Commands.SeedNotObject SeedRecord ->
      List.NoDup (map fst (Commands.seedEntries SeedRecord seedContent)) ->
      exists validated : Commands.ValidatedSeed SeedRecord,
        Commands.loadSeedData SeedRecord (Some seedPath) true (inr seedContent)
        = (Some validated,
           map Commands.notArrayWarning
             (rejectedKeys (Commands.seedEntries SeedRecord seedContent))) /\
        (forall (key : string) (records : list SeedRecord),
            Commands.seed_own _ validated !! key = Some records <->
            key <> "__proto__" /\
            In (key, Commands.SeedArray SeedRecord records)
               (Commands.seedEntries SeedRecord seedContent)) /\
        (forall records : list SeedRecord,
            Commands.seed_prototype _ validated = Some records <->
            In ("__proto__", Commands.SeedArray SeedRecord records)
               (Commands.seedEntries SeedRecord seedContent))) /\
  (forall declared : list (string * Commands.SeedValue SeedRecord),
      Commands.seedEntries SeedRecord (Commands.SeedObject SeedRecord declared)
      = JS.entries declared) /\
  (forall elements : list (Commands.SeedValue SeedRecord),
      map fst (Commands.seedEntries SeedRecord (Commands.SeedTopArray SeedRecord elements))
      = map Commands.indexKey (seq 0 (length elements)) /\
      map snd (Commands.seedEntries SeedRecord (Commands.SeedTopArray SeedRecord elements))
      = elements).
Proof.
  split; [| split; [| split]].
  - intros seed pathExists readJson. unfold Commands.loadSeedData. split.
    + destruct seed as [seedPath |]; [| intros [? [=]]].
      destruct (JS.truthy seedPath) eqn:Hpath; cbn [negb]; [| intros [? [=]]].
      destruct pathExists; cbn [negb]; [| intros [? [=]]].
      destruct readJson as [message | [declared | elements |]];
        [intros [? [=]] | | | intros [? [=]]]; intros _.
      * exists seedPath, (Commands.SeedObject SeedRecord declared). now repeat split.
      * exists seedPath, (Commands.SeedTopArray SeedRecord elements). now repeat split.
    + intros (seedPath & seedContent & -> & -> & -> & -> & Hobject). cbn [negb].
      destruct seedContent; [cbn; eauto | cbn; eauto | contradiction].
  - intros seedPath seedContent Hpath Hobject Hnodup.
    assert (Hload : Commands.loadSeedData SeedRecord (Some seedPath) true (inr seedContent)
                    = (Some (fst (Commands.validateSeedData SeedRecord
                                    (Commands.seedEntries SeedRecord seedContent))),
                       snd (Commands.validateSeedData SeedRecord
                              (Commands.seedEntries SeedRecord seedContent)))).
    { unfold Commands.loadSeedData. rewrite Hpath. cbn [negb].
      destruct seedContent; [reflexivity | reflexivity | contradiction]. }
    destruct (validate_fold SeedRecord (Commands.seedEntries SeedRecord seedContent)
                (Commands.mkValidatedSeed _ ∅ None) [] Hnodup)
      as (Hown & Hprototype & Hwarn).
    { intros key _. apply lookup_empty. }
    { reflexivity. }
    eexists. split; [| split].
    + rewrite Hload. f_equal. exact Hwarn.
    + intros key records. unfold Commands.validateSeedData. rewrite (Hown key records).
      cbn [Commands.seed_own]. rewrite lookup_empty. intuition discriminate.
    + intros records. unfold Commands.validateSeedData. rewrite (Hprototype records).
      cbn [Commands.seed_prototype]. intuition discriminate.
  - reflexivity.
  - intros elements. unfold Commands.seedEntries. split.
    + apply combine_fst. now rewrite length_map, length_seq.
    + apply combine_snd. now rewrite length_map, length_seq.
Qed.

Lemma seed_file_validation_witness :
  (exists validated : Commands.ValidatedSeed nat,
      Commands.loadSeedData nat (Some "seed.json") true
        (inr (Commands.SeedObject nat mixedSeedEntries))
      = (Some validated,
         ["Warning: Seed data for '9' is not an array, skipping";
          "Warning: Seed data for '10' is not an array, skipping";
          "Warning: Seed data for 'version' is not an array, skipping"]) /\
      (forall (key : string) (records : list nat),
          Commands.seed_own _ validated !! key = Some records <->
          key <> "__proto__" /\
          In (key, Commands.SeedArray nat records)
             (Commands.seedEntries nat (Commands.SeedObject nat mixedSeedEntries))) /\
      (forall records : list nat,
          Commands.seed_prototype _ validated = Some records <->
          In ("__proto__", Commands.SeedArray nat records)
             (Commands.seedEntries nat (Commands.SeedObject nat mixedSeedEntries)))) /\
  (exists validated : Commands.ValidatedSeed nat,
      Commands.loadSeedData nat (Some "seed.json") true (inr seedFileArray)
      = (Some validated, ["Warning: Seed data for '1' is not an array, skipping"]) /\
      Commands.seed_own _ validated !! "0" = Some [1; 2]%list).
Proof.
  split.
  - apply (proj1 (proj2 (seed_file_validation nat)) "seed.json"
             (Commands.SeedObject nat mixedSeedEntries)).
    + reflexivity.
    + discriminate.
    + vm_compute. repeat (constructor; [cbn; intuition discriminate |]). constructor.
  - destruct (proj1 (proj2 (seed_file_validation nat)) "seed.json" seedFileArray)
      as (validated & Hload & Hown & _).
    + reflexivity.
    + discriminate.
    + vm_compute. repeat (constructor; [cbn; intuition discriminate |]). constructor.
    + exists validated. split; [exact Hload |].
      apply Hown. split; [discriminate |]. vm_compute. now left.
Defined.

(** * Properties of the endpoint types *)

Lemma json_lines_none (line : MediaType -> string) (content : list (string * MediaType)) :
  lookupKey "application/json" content = None ->
  String.concat ""
    (map (fun entry => if String.eqb (fst entry) "application/json" then line (snd entry) else "")
         content) = "".
Proof.
  induction content as [| [k v] content IH]; cbn [lookupKey]; intros Hnone; [reflexivity |].
  cbn [map]. rewrite concat_step. cbn [fst snd].
  destruct (String.eqb k "application/json"); [discriminate |]. now apply IH.
Qed.

Lemma json_lines_one (line : MediaType -> string) (content : list (string * MediaType))
  (media : MediaType) :
  List.NoDup (map fst content) ->
  lookupKey "application/json" content = Some media ->
  String.concat ""
    (map (fun entry => if String.eqb (fst entry) "application/json" then line (snd entry) else "")
         content) = line media.
Proof.
  induction content as [| [k v] content IH]; cbn [lookupKey map fst]; intros Hnodup Hfound;
    [discriminate |].
  inversion Hnodup as [| ? ? Hnotin Hrest]; subst.
  cbn [map]. rewrite concat_step. cbn [fst snd].
  destruct (String.eqb_spec k "application/json") as [-> | _].
  - injection Hfound as ->.
    rewrite json_lines_none by now apply lookupKey_absent. apply append_nil_r.
  - now apply IH.
Qed.

(** X16: the response type of an endpoint wraps [void] when no success
    response is declared or the first one has no content, and the type of
    the JSON body when that response has one; when the response has content
    but none of it is JSON, no response type is emitted at all. *)
Theorem response_type_cases (endpoint : SwaggerEndpoint) :
  (noSuccessResponse (responses endpoint) ->
   TypeGenerator.responseTypes endpoint = responseAlias endpoint "void") /\
  (forall r : Response,
      firstSuccessResponse (responses endpoint) r ->
      (response_content r = None ->
       TypeGenerator.responseTypes endpoint = responseAlias endpoint "void") /\
      (forall content : list (string * MediaType),
          response_content r = Some content ->
          lookupKey "application/json" content = None ->
          TypeGenerator.responseTypes endpoint = "") /\
      (forall (content : list (string * MediaType)) (media : MediaType),
          response_content r = Some content ->
          List.NoDup (map fst content) ->
          lookupKey "application/json" content = Some media ->
          TypeGenerator.responseTypes endpoint
          = responseAlias endpoint (TypeGenerator.generateTypeFromSchema (media_schema media)))).
Proof.
  unfold TypeGenerator.responseTypes. split.
  - intros Hnone.
    now rewrite (find_none _ (fun x => JS.startsWith "2" (statusCode x)) _ Hnone).
  - intros r (before & after & Hdecl & Hbefore & Hr). rewrite Hdecl.
    rewrite (find_first _ (fun x => JS.startsWith "2" (statusCode x)) before after r Hbefore Hr).
    repeat apply conj.
    + now intros ->.
    + intros content -> Hnone.
      apply (json_lines_none
               (fun media => responseAlias endpoint
                               (TypeGenerator.generateTypeFromSchema (media_schema media)))).
      exact Hnone.
    + intros content media -> Hnodup Hfound.
      apply (json_lines_one
               (fun media => responseAlias endpoint
                               (TypeGenerator.generateTypeFromSchema (media_schema media)))
               content media Hnodup Hfound).
Qed.

Lemma response_type_cases_witness :
  TypeGenerator.responseTypes xmlEndpoint = "" /\
  TypeGenerator.responseTypes deleteEndpoint
  = "export type DeletePetResponse = ApiResponse<void>;" ++ nl.
Proof.
  split.
  - apply (proj1 (proj2 (proj2 (response_type_cases xmlEndpoint)
                                 (mkResponse "200" "Report"
                                    (Some [("application/xml", mkMediaType (plainSchema "string"))]))
                                 ltac:(exists [], []; repeat split; constructor)))
             [("application/xml", mkMediaType (plainSchema "string"))]); reflexivity.
  - apply (proj1 (response_type_cases deleteEndpoint)). constructor.
Defined.

(** * Further properties of parsed operations and of parameter types *)

Lemma parseContent_names (content : option (list (string * RawMediaType))) :
  map fst (SwaggerSpecParser.parseContent content) = map fst (default [] content).
Proof.
  destruct content as [entries |]; [| reflexivity].
  cbn [SwaggerSpecParser.parseContent default]. rewrite map_map. reflexivity.
Qed.

Lemma filter_map_fst (A : Type) (keep : string -> bool) (l : list (string * A)) :
  map fst (List.filter (fun entry => keep (fst entry)) l) = List.filter keep (map fst l).
Proof.
  induction l as [| e l IH]; [reflexivity |].
  cbn [List.filter map]. destruct (keep (fst e)); cbn [map]; now rewrite IH.
Qed.

Lemma sorted_keys (A : Type) (l : list (string * A)) :
  StronglySorted indexLe l ->
  StronglySorted (fun a b => (JS.indexValue a <= JS.indexValue b)%Z) (map fst l).
Proof.
  induction 1 as [| e l Hsorted IH Hall]; cbn [map]; constructor; [exact IH |].
  apply List.Forall_forall. intros key Hin. apply in_map_iff in Hin as (x & <- & Hin).
  exact (proj1 (List.Forall_forall _ _) Hall x Hin).
Qed.



(** X18: for a parameter whose schema is a plain primitive (no reference,
    no enumeration, no array items, not an object) the type written in
    the API function is the type the type generator resolves for it. *)
Theorem primitive_parameter_types_agree (schema : Schema) :
  truthyRef schema = None ->
  enum schema = None ->
  items schema = None ->
  type schema <> "object" ->
  ApiGenerator.mapSchemaToTypeScript schema = TypeGenerator.generateTypeFromSchema schema.
Proof.
  intros Href Henum Hitems Htype.
  rewrite generateTypeFromSchema_eq, Href, Henum, Hitems.
  apply String.eqb_neq in Htype. rewrite Htype.
  destruct (String.eqb (type schema) "array"); cbv iota.
  all: unfold ApiGenerator.mapSchemaToTypeScript, TypeGenerator.mapSwaggerTypeToTypeScript;
    cbv zeta; rewrite Htype; reflexivity.
Qed.

Lemma primitive_parameter_types_agree_witness :
  ApiGenerator.mapSchemaToTypeScript (plainSchema "integer") = "number" /\
  TypeGenerator.generateTypeFromSchema (plainSchema "integer") = "number".
Proof.
  rewrite <- (primitive_parameter_types_agree (plainSchema "integer"));
    (reflexivity || discriminate || (split; reflexivity)).
Defined.

Lemma groups_partition_endpoints_witness :
  exists groups : list (string * list SwaggerEndpoint),
    DbGenerator.groupEndpointsByController (endpoints mixedCaseDocument) = Some groups /\
    lookupKey "users" groups
    = Some [simpleEndpoint "/users" "GET" "listUsers" [] (Some ["Users"]);
            simpleEndpoint "/users" "POST" "createUser" [] (Some ["USERS"; "admin"])].
Proof.
  destruct (proj1 (groups_partition_endpoints (endpoints mixedCaseDocument)))
    as (groups & Hgroups & Hlookup & _).
  - repeat constructor.
  - exists groups. split; [exact Hgroups | exact (Hlookup "users")].
Defined.

Lemma db_files_follow_entries_order_witness :
  DbGenerator.getUniqueControllers numberedDocument = ["pets"; "10"; "9"] /\
  map fst (fst (DbGenerator.generate nat (fun _ => "[]") (fun names => names) (fun _ _ => "")
                  numberedDocument None))
  = ["db-setup.ts"; "9-db.ts"; "10-db.ts"; "pets-db.ts"] /\
  map fst (fst (DbGenerator.generate nat (fun _ => "[]") (fun names => names) (fun _ _ => "")
                  mixedCaseDocument None))
  = "db-setup.ts" ::
    map (fun controller => controller ++ "-db.ts")
        (DbGenerator.getUniqueControllers mixedCaseDocument).
Proof.
  split; [reflexivity |]. split.
  - destruct (proj1 (db_files_follow_entries_order nat (fun _ => "[]") (fun names => names)
                       (fun _ _ => "") numberedDocument None))
      as (_ & Hnames & _).
    + repeat constructor.
    + exact Hnames.
  - destruct (proj1 (db_files_follow_entries_order nat (fun _ => "[]") (fun names => names)
                       (fun _ _ => "") mixedCaseDocument None))
      as (_ & _ & _ & Hplain).
    + repeat constructor.
    + apply Hplain. repeat constructor.
Defined.
